(** * The slot container of serenity-dev: a shallow embedding of
    [packages/core/src/container.ts] and the properties of its operations.

    Item stacks, trait instances, containers and players are JavaScript
    objects that the code shares by reference, so the embedding keeps them in
    stores indexed by object identity and threads one [World] through every
    method.  Numbers are integers ([Z]); a slot index may also be [NaN], which
    is what [slot % 0] evaluates to.  Array lengths are unbounded here. *)

From stdpp Require Import gmap strings list.
From Stdlib Require Import ZArith Lia.

Open Scope Z_scope.

(** ** Object identities *)

Definition ref := nat.     (* an ItemStack object *)
Definition tref := nat.    (* an ItemStackTrait instance *)
Definition cref := nat.    (* a Container object *)
Definition Player := nat.  (* a Player object *)

(** ** Numbers used as array keys *)

Inductive index :=
  | Int (z : Z)
  | NaN.

#[global] Instance index_eq_dec : EqDecision index.
Proof. solve_decision. Defined.

#[global] Instance index_countable : Countable index.
Proof.
  refine (inj_countable' (fun i => match i with Int z => Some z | NaN => None end)
                         (fun o => match o with Some z => Int z | None => NaN end) _).
  by intros [].
Defined.

(** [slot % n] on numbers: the remainder takes the sign of the dividend, and
    a zero divisor gives [NaN]. *)
Definition js_rem (slot : index) (n : Z) : index :=
  match slot with
  | Int z => if n =? 0 then NaN else Int (Z.rem z n)
  | NaN => NaN
  end.

(** ** The storage array

    [elems] are the array elements [0 .. length-1] ([None] is [null]).  A write
    through a key that is not an element index (a negative number, [NaN])
    creates an ordinary property on the array object; [props] holds those.
    They are invisible to [length], [indexOf], [findIndex], [at], [slice] and
    iteration, but [storage[key]] reads them back. *)
Record Storage := mkStorage {
  elems : list (option ref);
  props : gmap index (option ref)
}.

Definition is_element (s : Storage) (z : Z) : bool :=
  (0 <=? z) && (z <? Z.of_nat (length (elems s))).

(** [storage[key] ?? null] *)
Definition storage_get (s : Storage) (key : index) : option ref :=
  match key with
  | Int z =>
      if is_element s z then mjoin (elems s !! Z.to_nat z)
      else mjoin (props s !! key)
  | NaN => mjoin (props s !! key)
  end.

(** [storage[key] = value].  An integer key at or beyond the length would grow
    the array; every key the container passes is a remainder by the length,
    hence smaller in magnitude, so that case does not arise and is filed with
    the other non-element keys. *)
Definition storage_set (s : Storage) (key : index) (value : option ref) : Storage :=
  match key with
  | Int z =>
      if is_element s z
      then mkStorage (<[Z.to_nat z := value]> (elems s)) (props s)
      else mkStorage (elems s) (<[key := value]> (props s))
  | NaN => mkStorage (elems s) (<[key := value]> (props s))
  end.

(** [storage.at(key)]: a negative key counts from the end, [NaN] is [0]. *)
Definition storage_at (s : Storage) (key : index) : option ref :=
  match key with
  | Int z =>
      let k := if z <? 0 then Z.of_nat (length (elems s)) + z else z in
      if is_element s k then mjoin (elems s !! Z.to_nat k) else None
  | NaN => mjoin (elems s !! 0%nat)
  end.

(** [Array.from({ length: n }, () => null)] *)
Definition empty_storage (n : Z) : Storage :=
  mkStorage (replicate (Z.to_nat n) None) ∅.

(** ** Item stacks, traits, packets *)

Record ItemType := mkItemType {
  identifier : string;
  maxAmount : Z;
  stackable : bool
}.

Record ItemStack := mkItemStack {
  type : ItemType;
  stackSize : Z;
  container : option cref;
  dynamicProperties : gmap string string;
  traits : list tref;
  nbt : gmap string string
}.

Record ItemStackTrait := mkTrait {
  trait_identifier : string;
  trait_item : ref;
  trait_state : string
}.

Definition ContainerType := Z.

Inductive NetworkItemStackDescriptor :=
  | EmptyDescriptor
  | StackDescriptor (ty : ItemType) (size : Z).

Inductive Packet :=
  | InventorySlotPacket (containerId : Z) (slot : index)
                        (item : NetworkItemStackDescriptor)
  | InventoryContentPacket (containerId : Z)
                           (items : list NetworkItemStackDescriptor)
  | ContainerClosePacket (id : Z) (ty : ContainerType) (serverInitiated : bool).

(** What the container does to the outside, in program order. *)
Inductive Event :=
  | Send (player : Player) (packet : Packet)
  | OnContainerOpen (trait : tref) (player : Player)
  | OnContainerClose (trait : tref) (player : Player).

Inductive Error :=
  | NegativeSize      (* "Container size cannot be negative." *)
  | NotViewing.       (* "Player is not viewing the container." *)

Inductive Result (A : Type) :=
  | Ok (a : A)
  | Throw (e : Error).
Arguments Ok {A} a.
Arguments Throw {A} e.

(** ** Containers and the world *)

Record Container := mkContainer {
  ctype : ContainerType;
  cidentifier : option Z;
  storage : Storage;
  occupants : list (Player * Z)   (* a Map, in insertion order *)
}.

Record World := mkWorld {
  items : gmap ref ItemStack;
  traitObjs : gmap tref ItemStackTrait;
  containers : gmap cref Container;
  openedContainer : gmap Player cref;   (* player.openedContainer *)
  nextContainerId : Z;                  (* Container.nextContainerId *)
  events : list Event
}.

#[global] Instance ItemType_eq_dec : EqDecision ItemType.
Proof. solve_decision. Defined.

#[global] Instance ItemStack_inhabited : Inhabited ItemStack :=
  populate (mkItemStack (mkItemType "" 0 false) 0 None ∅ [] ∅).
#[global] Instance ItemStackTrait_inhabited : Inhabited ItemStackTrait :=
  populate (mkTrait "" 0%nat "").
#[global] Instance Container_inhabited : Inhabited Container :=
  populate (mkContainer 0 None (mkStorage [] ∅) []).

Definition stack (w : World) (r : ref) : ItemStack := items w !!! r.
Definition cont (w : World) (c : cref) : Container := containers w !!! c.
Definition store (w : World) (c : cref) : Storage := storage (cont w c).

(** [container.size] *)
Definition size (w : World) (c : cref) : Z :=
  Z.of_nat (length (elems (store w c))).

(** *** Field updates *)

Definition set_items (f : gmap ref ItemStack -> gmap ref ItemStack) (w : World) : World :=
  mkWorld (f (items w)) (traitObjs w) (containers w) (openedContainer w)
          (nextContainerId w) (events w).

Definition set_traitObjs (f : gmap tref ItemStackTrait -> gmap tref ItemStackTrait)
    (w : World) : World :=
  mkWorld (items w) (f (traitObjs w)) (containers w) (openedContainer w)
          (nextContainerId w) (events w).

Definition set_containers (f : gmap cref Container -> gmap cref Container)
    (w : World) : World :=
  mkWorld (items w) (traitObjs w) (f (containers w)) (openedContainer w)
          (nextContainerId w) (events w).

Definition set_openedContainer (f : gmap Player cref -> gmap Player cref)
    (w : World) : World :=
  mkWorld (items w) (traitObjs w) (containers w) (f (openedContainer w))
          (nextContainerId w) (events w).

Definition set_nextContainerId (n : Z) (w : World) : World :=
  mkWorld (items w) (traitObjs w) (containers w) (openedContainer w) n (events w).

Definition emit (es : list Event) (w : World) : World :=
  mkWorld (items w) (traitObjs w) (containers w) (openedContainer w)
          (nextContainerId w) (events w ++ es).

Definition update_stack (r : ref) (f : ItemStack -> ItemStack) (w : World) : World :=
  set_items (fun m => <[r := f (stack w r)]> m) w.

Definition update_cont (c : cref) (f : Container -> Container) (w : World) : World :=
  set_containers (fun m => <[c := f (cont w c)]> m) w.

Definition with_storage (s : Storage) (k : Container) : Container :=
  mkContainer (ctype k) (cidentifier k) s (occupants k).

Definition with_occupants (o : list (Player * Z)) (k : Container) : Container :=
  mkContainer (ctype k) (cidentifier k) (storage k) o.

Definition with_stackSize (n : Z) (i : ItemStack) : ItemStack :=
  mkItemStack (type i) n (container i) (dynamicProperties i) (traits i) (nbt i).

Definition with_container (c : option cref) (i : ItemStack) : ItemStack :=
  mkItemStack (type i) (stackSize i) c (dynamicProperties i) (traits i) (nbt i).

Definition with_dynamicProperties (m : gmap string string) (i : ItemStack) : ItemStack :=
  mkItemStack (type i) (stackSize i) (container i) m (traits i) (nbt i).

Definition with_traits (ts : list tref) (i : ItemStack) : ItemStack :=
  mkItemStack (type i) (stackSize i) (container i) (dynamicProperties i) ts (nbt i).

Definition with_nbt (m : gmap string string) (i : ItemStack) : ItemStack :=
  mkItemStack (type i) (stackSize i) (container i) (dynamicProperties i) (traits i) m.

(** [this.storage[key] = value] *)
Definition write_slot (c : cref) (key : index) (value : option ref) (w : World) : World :=
  update_cont c (fun k => with_storage (storage_set (storage k) key value) k) w.

(** ** The item stack interface

    [item.ts] is not among the sources at hand; the container only reads and
    writes stacks through the members below. *)

Definition getStackSize (w : World) (r : ref) : Z := stackSize (stack w r).
Definition maxStackSize (w : World) (r : ref) : Z := maxAmount (type (stack w r)).
Definition isStackable (w : World) (r : ref) : bool := stackable (type (stack w r)).

(** Modelled from the spec: the [stackSize] setter of [ItemStack], which is
    missing from the sources; the quantity is a plain field of the stack. *)
Definition setStackSize (r : ref) (n : Z) (w : World) : World :=
  update_stack r (with_stackSize n) w.

(** Modelled from the spec: [ItemStack.incrementStack], missing from the
    sources ("increment target"). *)
Definition incrementStack (r : ref) (amount : Z) (w : World) : World :=
  setStackSize r (getStackSize w r + amount) w.

(** Modelled from the spec: [ItemStack.decrementStack], missing from the
    sources ("decrement source"). *)
Definition decrementStack (r : ref) (amount : Z) (w : World) : World :=
  setStackSize r (getStackSize w r - amount) w.

(** Modelled from the spec: the [ItemStack] constructor, missing from the
    sources: "a brand-new Item Stack of the same type holding" the given
    quantity, owned by no container and with no auxiliary state yet. *)
Definition new_ItemStack (ty : ItemType) (n : Z) (w : World) : ref * World :=
  let r := fresh (dom (items w)) in
  (r, set_items (fun m => <[r := mkItemStack ty n None ∅ [] ∅]> m) w).

(** Modelled from the spec: [ItemStack.toNetworkStack], missing from the
    sources: the descriptor of a stack as it is when the packet is built. *)
Definition toNetworkStack (i : ItemStack) : NetworkItemStackDescriptor :=
  StackDescriptor (type i) (stackSize i).

(** Modelled from the spec: [ItemStackTrait.clone], missing from the sources:
    a new trait instance of the same kind and state, attached to [owner]. *)
Definition clone_trait (t : tref) (owner : ref) (w : World) : tref * World :=
  let t' := fresh (dom (traitObjs w)) in
  let old := traitObjs w !!! t in
  (t', set_traitObjs
         (fun m => <[t' := mkTrait (trait_identifier old) owner (trait_state old)]> m) w).

(** Modelled from the spec: [ItemStack.addTrait] with a trait instance,
    missing from the sources: the instance joins the stack's traits. *)
Definition addTrait (r : ref) (t : tref) (w : World) : World :=
  update_stack r (fun i => with_traits (traits i ++ [t]) i) w.

(** Modelled from the spec: [ItemStorage.setDynamicProperty], missing from the
    sources. *)
Definition setDynamicProperty (r : ref) (key value : string) (w : World) : World :=
  update_stack r
    (fun i => with_dynamicProperties (<[key := value]> (dynamicProperties i)) i) w.

(** Modelled from the spec: [nbt.add(tag)] on a stack, missing from the
    sources; a tag is filed under its name. *)
Definition nbt_add (r : ref) (name value : string) (w : World) : World :=
  update_stack r (fun i => with_nbt (<[name := value]> (nbt i)) i) w.

(** ** Occupants: a [Map<Player, number>] in insertion order *)

Fixpoint occ_get (o : list (Player * Z)) (p : Player) : option Z :=
  match o with
  | [] => None
  | (q, u) :: o' => if decide (q = p) then Some u else occ_get o' p
  end.

Definition occ_has (o : list (Player * Z)) (p : Player) : bool :=
  bool_decide (is_Some (occ_get o p)).

Fixpoint occ_set (o : list (Player * Z)) (p : Player) (v : Z) : list (Player * Z) :=
  match o with
  | [] => [(p, v)]
  | (q, u) :: o' => if decide (q = p) then (p, v) :: o' else (q, u) :: occ_set o' p v
  end.

Definition occ_delete (o : list (Player * Z)) (p : Player) : list (Player * Z) :=
  filter (fun kv => fst kv ≠ p) o.

(** ** The container's methods *)

Section Container.

(** [item.equals(other)]: the type compatibility of two stacks, decided by
    [ItemStack.equals], which is not among the sources. *)
Variable equals : ItemStack -> ItemStack -> bool.

(** [ItemIdentifier.Air], the identifier of the empty item. *)
Variable Air : string.

(** [ContainerId.First] and [ContainerId.Last], from the protocol package. *)
Variables First Last : Z.

(** [getItem(slot)] *)
Definition getItem (c : cref) (slot : index) (w : World) : option ref :=
  let slot := js_rem slot (size w c) in
  storage_get (store w c) slot.

(** [updateSlot(slot)] *)
Definition updateSlot (c : cref) (slot : index) (w : World) : World :=
  let itemStack := storage_at (store w c) slot in
  let item := match itemStack with
              | Some r => toNetworkStack (stack w r)
              | None => EmptyDescriptor
              end in
  emit (map (fun '(player, id) => Send player (InventorySlotPacket id slot item))
            (occupants (cont w c))) w.

(** [clearSlot(slot)] *)
Definition clearSlot (c : cref) (slot : index) (w : World) : World :=
  let slot := js_rem slot (size w c) in
  let w := write_slot c slot None w in
  if decide (length (occupants (cont w c)) = 0%nat) then w
  else updateSlot c slot w.

(** [setItem(slot, item)] *)
Definition setItem (c : cref) (slot : index) (item : ref) (w : World) : World :=
  let slot := js_rem slot (size w c) in
  let w := write_slot c slot (Some item) w in
  let w := if (getStackSize w item =? 0)
              || bool_decide (identifier (type (stack w item)) = Air)
           then clearSlot c slot w else w in
  let w := update_stack item (with_container (Some c)) w in
  updateSlot c slot w.

(** [storage.indexOf(null)], [None] standing for [-1] *)
Definition indexOf_null (s : Storage) : option nat :=
  fst <$> list_find (fun e : option ref => e = None) (elems s).

(** The callback of [findIndex] in [addItem]:
    [slot && slot.stackSize < slot.maxStackSize && item.equals(slot)] *)
Definition accepts (w : World) (item : ref) (slot : option ref) : bool :=
  match slot with
  | Some r => (getStackSize w r <? maxStackSize w r) && equals (stack w item) (stack w r)
  | None => false
  end.

Definition findIndex_accepting (w : World) (item : ref) (s : Storage)
    : option (nat * option ref) :=
  list_find (fun e => accepts w item e = true) (elems s).

(** The [while] loop of [addItem]; [fuel] bounds the number of times the loop
    condition is evaluated, and [None] means the bound was reached. *)
Fixpoint addItem_loop (fuel : nat) (c : cref) (item : ref) (w : World) : option World :=
  match fuel with
  | O => None
  | S fuel =>
      if getStackSize w item >? 0 then
        match findIndex_accepting w item (store w c) with
        | Some (_, Some existingItem) =>
            let amountToAdd :=
              Z.min (maxStackSize w existingItem - getStackSize w existingItem)
                    (getStackSize w item) in
            let w := incrementStack existingItem amountToAdd w in
            let w := decrementStack item amountToAdd w in
            addItem_loop fuel c item w
        | _ =>
            match indexOf_null (store w c) with
            | Some emptySlotIndex =>
                let amountToSet := Z.min (maxStackSize w item) (getStackSize w item) in
                let '(newItem, w) := new_ItemStack (type (stack w item)) amountToSet w in
                let w := setItem c (Int (Z.of_nat emptySlotIndex)) newItem w in
                let w := decrementStack item amountToSet w in
                addItem_loop fuel c item w
            | None => Some w
            end
        end
      else Some w
  end.

(** [addItem(item)] *)
Definition addItem (fuel : nat) (c : cref) (item : ref) (w : World)
    : option (bool * World) :=
  if negb (isStackable w item) then
    match indexOf_null (store w c) with
    | Some emptySlot =>
        let w := setItem c (Int (Z.of_nat emptySlot)) item w in
        let w := setStackSize item 0 w in
        Some (true, w)
    | None => Some (false, w)
    end
  else
    match addItem_loop fuel c item w with
    | Some w => Some (getStackSize w item =? 0, w)
    | None => None
    end.

(** [removeItem(slot, amount)] *)
Definition removeItem (c : cref) (slot : index) (amount : Z) (w : World)
    : option ref * World :=
  let slot := js_rem slot (size w c) in
  match getItem c slot w with
  | None => (None, w)
  | Some item =>
      let removed := Z.min amount (getStackSize w item) in
      let w := decrementStack item removed w in
      let w := if getStackSize w item =? 0 then write_slot c slot None w else w in
      (Some item, w)
  end.

(** [takeItem(slot, amount)] *)
Definition takeItem (c : cref) (slot : index) (amount : Z) (w : World)
    : option ref * World :=
  let slot := js_rem slot (size w c) in
  match getItem c slot w with
  | None => (None, w)
  | Some item =>
      if amount =? getStackSize w item then
        let w := clearSlot c slot w in
        (Some item, w)
      else
        let removed := Z.min amount (getStackSize w item) in
        let w := decrementStack item removed w in
        let w := if getStackSize w item =? 0 then clearSlot c slot w else w in
        let '(newItem, w) := new_ItemStack (type (stack w item)) removed w in
        let w := foldl (fun w '(key, value) => setDynamicProperty newItem key value w)
                       w (map_to_list (dynamicProperties (stack w item))) in
        let w := foldl (fun w trait =>
                          let '(cloned, w) := clone_trait trait newItem w in
                          addTrait newItem cloned w)
                       w (traits (stack w item)) in
        let w := updateSlot c slot w in
        let w := foldl (fun w '(name, value) => nbt_add newItem name value w)
                       w (map_to_list (nbt (stack w item))) in
        (Some newItem, w)
  end.

(** [swapItems(slot, otherSlot, otherContainer?)] *)
Definition swapItems (c : cref) (slot otherSlot : index) (otherContainer : option cref)
    (w : World) : World :=
  let slot := js_rem slot (size w c) in
  let otherSlot := js_rem otherSlot (size w (default c otherContainer)) in
  let targetContainer := default c otherContainer in
  let item := getItem c slot w in
  let otherItem := getItem targetContainer otherSlot w in
  let w := clearSlot c slot w in
  let w := clearSlot targetContainer otherSlot w in
  let w := match item with
           | Some item => setItem targetContainer otherSlot item w
           | None => w
           end in
  match otherItem with
  | Some otherItem => setItem c slot otherItem w
  | None => w
  end.

(** [update()] *)
Definition update (c : cref) (w : World) : World :=
  let descriptors :=
    map (fun item : option ref =>
           match item with
           | None => EmptyDescriptor
           | Some r => toNetworkStack (stack w r)
           end) (elems (store w c)) in
  emit (map (fun '(player, id) => Send player (InventoryContentPacket id descriptors))
            (occupants (cont w c))) w.

(** [clear()] *)
Definition clear (c : cref) (w : World) : World :=
  let w := update_cont c (with_storage (empty_storage (size w c))) w in
  if decide (length (occupants (cont w c)) = 0%nat) then w
  else update c w.

(** [emptySlotsCount] and [isFull] *)
Definition emptySlotsCount (w : World) (c : cref) : nat :=
  length (filter (fun e : option ref => e = None) (elems (store w c))).

Definition isFull (w : World) (c : cref) : bool :=
  bool_decide (emptySlotsCount w c = 0%nat).

(** The [size] setter *)
Definition set_size (c : cref) (value : Z) (w : World) : Result World :=
  if value <? 0 then Throw NegativeSize
  else
    let existingItems := take (Z.to_nat value) (elems (store w c)) in
    let fresh_array :=
      map (fun i : nat => mjoin (existingItems !! i)) (seq 0 (Z.to_nat value)) in
    Ok (update_cont c (with_storage (mkStorage fresh_array ∅)) w).

(** [new Container(type, size)] *)
Definition new_Container (ty : ContainerType) (n : Z) (w : World) : Result (cref * World) :=
  let c := fresh (dom (containers w)) in
  let w := set_containers (fun m => <[c := mkContainer ty None (mkStorage [] ∅) []]> m) w in
  match set_size c n w with
  | Throw e => Throw e
  | Ok w => Ok (c, update_cont c (with_storage (empty_storage n)) w)
  end.

(** [Container.getNextContainerId()] *)
Definition getNextContainerId (w : World) : Z * World :=
  let id := nextContainerId w in
  let w := set_nextContainerId (nextContainerId w + 1) w in
  if id >? Last then
    let w := set_nextContainerId First w in
    (nextContainerId w, w)
  else (id, w).

(** The trait callbacks run over the storage, slot by slot. *)
Definition trait_events (mk : tref -> Player -> Event) (c : cref) (player : Player)
    (w : World) : list Event :=
  flat_map (fun item : option ref =>
              match item with
              | None => []
              | Some r => map (fun t => mk t player) (traits (stack w r))
              end) (elems (store w c)).

(** [close(player, serverInitiated = true)] *)
Definition close (c : cref) (player : Player) (serverInitiated : bool) (w : World)
    : Result World :=
  match occ_get (occupants (cont w c)) player with
  | None => Throw NotViewing
  | Some id =>
      let w := emit [Send player (ContainerClosePacket id (ctype (cont w c)) serverInitiated)] w in
      let w := set_openedContainer (delete player) w in
      let w := update_cont c (fun k => with_occupants (occ_delete (occupants k) player) k) w in
      Ok (emit (trait_events OnContainerClose c player w) w)
  end.

(** The part of [show] that follows the closing of the previous container. *)
Definition register (c : cref) (player : Player) (w : World) : Z * World :=
  let '(id, w) := getNextContainerId w in
  let w := update_cont c (fun k => with_occupants (occ_set (occupants k) player id) k) w in
  let w := set_openedContainer (fun m => <[player := c]> m) w in
  (id, emit (trait_events OnContainerOpen c player w) w).

(** [show(player)] *)
Definition show (c : cref) (player : Player) (w : World) : Result (Z * World) :=
  match openedContainer w !! player with
  | Some opened =>
      match close opened player true w with
      | Throw e => Throw e
      | Ok w => Ok (register c player w)
      end
  | None => Ok (register c player w)
  end.

End Container.

(** ** Derived definitions *)

(** [n] successive calls of [getNextContainerId]: the identifiers they return,
    in order, and the world they leave. *)
Fixpoint allocate (First Last : Z) (n : nat) (w : World) : list Z * World :=
  match n with
  | O => ([], w)
  | S n =>
      let '(id, w) := getNextContainerId First Last w in
      let '(ids, w) := allocate First Last n w in
      (id :: ids, w)
  end.

(** The world before anything ran: no objects, and the counter at [First]. *)
Definition initial (First : Z) : World := mkWorld ∅ ∅ ∅ ∅ First [].

(** ** Values for the worked examples *)

(** Modelled from the spec: [ItemStack.equals], missing from the sources:
    "equality defined by type-compatibility (not instance identity)". *)
Definition equals_type (a b : ItemStack) : bool := bool_decide (type a = type b).

(** The identifier of air, and the identifier range of the protocol. *)
Definition air : string := "minecraft:air".
Definition First_id : Z := 1.
Definition Last_id : Z := 100.

Definition stone : ItemType := mkItemType "minecraft:stone" 64 true.
Definition dirt : ItemType := mkItemType "minecraft:dirt" 64 true.
Definition sword : ItemType := mkItemType "minecraft:diamond_sword" 1 false.

(** A world with one container (object 0) whose storage is [slots]. *)
Definition world_of (stacks : list ItemStack) (slots : list (option ref))
    (viewers : list (Player * Z)) : World :=
  mkWorld (list_to_map (zip (seq 0 (length stacks)) stacks)) ∅
          {[ 0%nat := mkContainer 0 None (mkStorage slots ∅) viewers ]}
          (list_to_map ((fun pv => (fst pv, 0%nat)) <$> viewers)) First_id [].

Definition plain (ty : ItemType) (n : Z) : ItemStack :=
  mkItemStack ty n None ∅ [] ∅.

(** ** The claim about [setItem], word for word

    "If the stored stack's size is zero or its type is the air sentinel, the
    slot is cleared instead, and otherwise (only in that case) the item's
    back-reference is updated to this container; every call triggers exactly
    one single-slot notification": one packet for each viewer. *)
Definition setItem_as_claimed (Air : string) (c : cref) (slot : index) (item : ref)
    (w : World) : Prop :=
  let w' := setItem Air c slot item w in
  let cleared := (getStackSize w item =? 0)
                 || bool_decide (identifier (type (stack w item)) = Air) in
  getItem c slot w' = (if cleared then None else Some item) /\
  container (stack w' item) =
    (if cleared then container (stack w item) else Some c) /\
  length (events w') = (length (events w) + length (occupants (cont w c)))%nat.

(** ** Stacks a slot keeps

    [setItem] leaves a stack in the slot unless its size is zero or its type
    is air. *)
Definition storable (Air : string) (w : World) (item : ref) : bool :=
  negb ((getStackSize w item =? 0)
        || bool_decide (identifier (type (stack w item)) = Air)).

(** ** Viewers *)

(** [player] is among the occupants of [c]. *)
Definition viewing (w : World) (c : cref) (player : Player) : Prop :=
  is_Some (occ_get (occupants (cont w c)) player).

(** The player's record of its open container agrees with the occupants of
    every container. *)
Definition consistent (w : World) (player : Player) : Prop :=
  forall c, viewing w c player <-> openedContainer w !! player = Some c.

(** [show] called on the containers [cs], one after the other, by one player. *)
Fixpoint shows (First Last : Z) (cs : list cref) (player : Player) (w : World)
    : Result World :=
  match cs with
  | [] => Ok w
  | c :: cs =>
      match show First Last c player w with
      | Ok (_, w) => shows First Last cs player w
      | Throw e => Throw e
      end
  end.

(** A world with two empty containers of three slots each and no viewer. *)
Definition two_chests : World :=
  mkWorld ∅ ∅
    (<[0%nat := mkContainer 0 None (empty_storage 3) []]>
       (<[1%nat := mkContainer 0 None (empty_storage 3) []]> ∅))
    ∅ First_id [].

(** A chest of three slots, viewed by player 7, whose slot 0 holds ten
    stones carrying a dynamic property, a trait and a tag. *)
Definition loaded_chest : World :=
  mkWorld
    {[ 0%nat := mkItemStack stone 10 (Some 0%nat) {[ "lore" := "old" ]} [0%nat]
                  {[ "Damage" := "3" ]} ]}
    {[ 0%nat := mkTrait "durability" 0%nat "worn" ]}
    {[ 0%nat := mkContainer 0 None (mkStorage [Some 0%nat; None; None] ∅) [(7%nat, 1)] ]}
    {[ 7%nat := 0%nat ]} 2 [].

(** ** Adding a stackable stack, in the words of the specification

    "Scan slots in ascending order for the first occupied slot holding a
    type-compatible, not-yet-full stack.  If found, transfer
    [min(space_available_in_target, remaining_quantity)] units into it.  Else
    scan for the first empty slot.  If found, create a new stack of the
    caller's type holding [min(max_stack_size, remaining_quantity)] units, a
    fresh instance, place it and decrement the caller's remaining quantity by
    that amount.  Else stop." *)

Section AddSpec.

Variable equals : ItemStack -> ItemStack -> bool.

(** [l !! i] satisfies [P], and no element before it does. *)
Definition lowest {A} (P : A -> Prop) (l : list A) (i : nat) : Prop :=
  (exists x, l !! i = Some x /\ P x) /\
  (forall j x, l !! j = Some x -> P x -> (i <= j)%nat).

(** An occupied slot whose stack is compatible with [item] and not full. *)
Definition mergeable (w : World) (item : ref) (slot : option ref) : Prop :=
  exists r, slot = Some r /\
    getStackSize w r < maxStackSize w r /\
    equals (stack w item) (stack w r) = true.

Inductive add_step (c : cref) (item : ref) (w w' : World) : Prop :=
  | step_merge (i : nat) (r : ref) (m : Z) :
      lowest (mergeable w item) (elems (store w c)) i ->
      elems (store w c) !! i = Some (Some r) ->
      m = Z.min (maxStackSize w r - getStackSize w r) (getStackSize w item) ->
      elems (store w' c) = elems (store w c) ->
      stack w' r = with_stackSize (getStackSize w r + m) (stack w r) ->
      stack w' item = with_stackSize (getStackSize w item - m) (stack w item) ->
      (forall r0, r0 ≠ r -> r0 ≠ item -> stack w' r0 = stack w r0) ->
      add_step c item w w'
  | step_place (e : nat) (r' : ref) (m : Z) :
      Forall (fun slot => ~ mergeable w item slot) (elems (store w c)) ->
      lowest (fun slot => slot = None) (elems (store w c)) e ->
      m = Z.min (maxStackSize w item) (getStackSize w item) ->
      r' ∉ dom (items w) ->
      r' ≠ item ->
      elems (store w' c) = <[e := Some r']> (elems (store w c)) ->
      type (stack w' r') = type (stack w item) ->
      getStackSize w' r' = m ->
      stack w' item = with_stackSize (getStackSize w item - m) (stack w item) ->
      (forall r0, r0 ≠ r' -> r0 ≠ item -> stack w' r0 = stack w r0) ->
      add_step c item w w'.

(** The loop: it ends when nothing remains, or when no slot can take more. *)
Inductive add_run (c : cref) (item : ref) : World -> World -> Prop :=
  | run_absorbed w :
      getStackSize w item <= 0 -> add_run c item w w
  | run_full w :
      0 < getStackSize w item ->
      Forall (fun slot => ~ mergeable w item slot /\ slot ≠ None) (elems (store w c)) ->
      add_run c item w w
  | run_step w w1 w2 :
      0 < getStackSize w item ->
      add_step c item w w1 ->
      add_run c item w1 w2 ->
      add_run c item w w2.

End AddSpec.

(** What [addItem] expects of a stackable stack handed to it: its type is a
    proper one (positive maximum, not air), it is an object of the world like
    the stacks in the slots, and it is the caller's own, not one of those
    that sit in the container. *)
Definition add_ready (Air : string) (c : cref) (item : ref) (w : World) : Prop :=
  isStackable w item = true /\
  0 < maxStackSize w item /\
  identifier (type (stack w item)) ≠ Air /\
  (item ∈ dom (items w)) /\
  (Some item ∉ elems (store w c)) /\
  (forall r, Some r ∈ elems (store w c) -> r ∈ dom (items w)).

(** The quantity held by the slots of a container. *)
Definition total (w : World) (c : cref) : Z :=
  foldr (fun r acc => getStackSize w r + acc) 0 (omap id (elems (store w c))).

(** A chest of nine slots whose slot 0 holds forty stones (object 0), and a
    caller's stack of thirty stones (object 1). *)
Definition forty_and_thirty : World :=
  world_of [plain stone 40; plain stone 30]
    [Some 0%nat; None; None; None; None; None; None; None; None] [].

(** A chest with one empty slot and a caller's sword (object 0). *)
Definition chest_and_sword : World :=
  world_of [plain sword 1] [None] [].

(** ** Packets, as the notifications build them *)

(** The descriptor [updateSlot] reads for its packet. *)
Definition slot_descriptor (w : World) (c : cref) (slot : index)
    : NetworkItemStackDescriptor :=
  match storage_at (store w c) slot with
  | Some r => toNetworkStack (stack w r)
  | None => EmptyDescriptor
  end.

(** One slot packet for each occupant, in the order of the map. *)
Definition slot_packets (o : list (Player * Z)) (slot : index)
    (d : NetworkItemStackDescriptor) : list Event :=
  map (fun pv => Send (fst pv) (InventorySlotPacket (snd pv) slot d)) o.

(** One content packet for each occupant. *)
Definition content_packets (o : list (Player * Z))
    (ds : list NetworkItemStackDescriptor) : list Event :=
  map (fun pv => Send (fst pv) (InventoryContentPacket (snd pv) ds)) o.

(** A chest of three slots with stones in slot 1, for the examples. *)
Definition small_chest : World :=
  world_of [plain stone 5; plain sword 1] [None; Some 0%nat; None] [].

(** ** The swap involution, word for word

    "Performing the same swap twice in succession restores both slots to
    their original contents", for any two slots. *)
Definition swap_twice_restores (Air : string) (c : cref) (a b : index)
    (oc : option cref) (w : World) : Prop :=
  let t := default c oc in
  let w2 := swapItems Air c a b oc (swapItems Air c a b oc w) in
  getItem c a w2 = getItem c a w /\ getItem t b w2 = getItem t b w.

(** A chest of two slots after a sword was added to it: slot 0 holds the
    caller's sword object, whose size the call has set to zero. *)
Definition chest_with_zeroed_sword : World :=
  match addItem equals_type air 1 0%nat 0%nat
          (world_of [plain sword 1] [None; None] []) with
  | Some (_, w) => w
  | None => initial First_id
  end.

(** ** Cloned traits

    [t'] is a clone of [t] made between [w] and [w'] for the stack [r]: a
    trait object that [w] did not have, attached to [r], with the kind and
    state of [t] when [t] is a trait object of [w]. *)
Definition cloned_onto (w w' : World) (r : ref) (t t' : tref) : Prop :=
  (t' ∉ dom (traitObjs w)) /\
  (t' ∈ dom (traitObjs w')) /\
  trait_item (traitObjs w' !!! t') = r /\
  (t ∈ dom (traitObjs w) ->
   traitObjs w' !!! t' =
     mkTrait (trait_identifier (traitObjs w !!! t)) r (trait_state (traitObjs w !!! t))).

(** ** The stackable add, word for word

    "For a stackable incoming item with positive quantity", what [add] has
    done when it returns is a run of the loop described above, and it
    "returns true iff the remaining quantity reached zero". *)
Definition add_as_claimed (equals : ItemStack -> ItemStack -> bool) (Air : string)
    (c : cref) (item : ref) (w : World) : Prop :=
  isStackable w item = true ->
  0 < getStackSize w item ->
  forall fuel b w',
    addItem equals Air fuel c item w = Some (b, w') ->
    add_run equals c item w w' /\ (b = true <-> getStackSize w' item = 0).

(** A stackable type that carries the identifier of air, and a chest of two
    empty slots with a stack of five of it in the caller's hands. *)
Definition air_type : ItemType := mkItemType air 64 true.

Definition chest_and_air : World :=
  world_of [plain air_type 5] [None; None] [].

(** A chest of two slots whose slot 0 holds ten stones (object 0). *)
Definition chest_with_ten : World :=
  world_of [plain stone 10] [Some 0%nat; None] [].

(** * Facts about the stores *)

Lemma stack_update_stack w r f r' :
  stack (update_stack r f w) r' = if decide (r = r') then f (stack w r) else stack w r'.
Proof. unfold stack, update_stack, set_items; simpl. by rewrite lookup_total_insert. Qed.

Lemma stack_update_stack_eq w r f : stack (update_stack r f w) r = f (stack w r).
Proof. rewrite stack_update_stack. by case_decide. Qed.

Lemma stack_update_stack_ne w r f r' :
  r ≠ r' -> stack (update_stack r f w) r' = stack w r'.
Proof. intros. rewrite stack_update_stack. by case_decide. Qed.

Lemma cont_update_stack w r f c : cont (update_stack r f w) c = cont w c.
Proof. done. Qed.

Lemma cont_update_cont w c f c' :
  cont (update_cont c f w) c' = if decide (c = c') then f (cont w c) else cont w c'.
Proof. unfold cont, update_cont, set_containers; simpl. by rewrite lookup_total_insert. Qed.

Lemma cont_update_cont_eq w c f : cont (update_cont c f w) c = f (cont w c).
Proof. rewrite cont_update_cont. by case_decide. Qed.

Lemma cont_update_cont_ne w c f c' :
  c ≠ c' -> cont (update_cont c f w) c' = cont w c'.
Proof. intros. rewrite cont_update_cont. by case_decide. Qed.

Lemma stack_update_cont w c f r : stack (update_cont c f w) r = stack w r.
Proof. done. Qed.

Lemma dom_items_update_stack w r f :
  dom (items (update_stack r f w)) = {[r]} ∪ dom (items w).
Proof. unfold update_stack, set_items; simpl. by rewrite dom_insert_L. Qed.

(** ** Remainders *)

Lemma js_rem_idem slot n : js_rem (js_rem slot n) n = js_rem slot n.
Proof.
  destruct slot as [z|]; simpl; [|done].
  destruct (n =? 0) eqn:E; simpl; [done|].
  rewrite E. f_equal. apply Z.rem_rem. lia.
Qed.

Lemma js_rem_nonneg z n :
  0 <= z -> 0 < n -> js_rem (Int z) n = Int (z mod n) /\ 0 <= z mod n < n.
Proof.
  intros Hz Hn. simpl. destruct (n =? 0) eqn:E; [lia|].
  rewrite Z.rem_mod_nonneg by lia. split; [done|]. apply Z.mod_pos_bound. lia.
Qed.

(** ** Reading and writing the array *)

Lemma storage_set_length s k v :
  length (elems (storage_set s k v)) = length (elems s).
Proof.
  destruct k as [z|]; simpl; [|done].
  destruct (is_element s z); simpl; [|done]. by rewrite length_insert.
Qed.

Lemma is_element_storage_set s k v z :
  is_element (storage_set s k v) z = is_element s z.
Proof. unfold is_element. by rewrite storage_set_length. Qed.

Lemma storage_get_set s k v k' :
  storage_get (storage_set s k v) k' =
  if decide (k = k') then v else storage_get s k'.
Proof.
  destruct k' as [z'|]; simpl.
  - rewrite is_element_storage_set.
    destruct k as [z|]; simpl.
    + destruct (is_element s z) eqn:Ez; simpl.
      * destruct (is_element s z') eqn:Ez'.
        -- unfold is_element in Ez, Ez'.
           apply andb_true_iff in Ez as [? ?], Ez' as [? ?].
           case_decide as Hk.
           ++ inversion Hk; subst. rewrite list_lookup_insert_eq; [done|lia].
           ++ rewrite list_lookup_insert_ne; [done|].
              intros Hn. apply Hk. f_equal. lia.
        -- case_decide as Hk; [|done]. inversion Hk; subst. congruence.
      * destruct (is_element s z') eqn:Ez'.
        -- case_decide as Hk; [|done]. inversion Hk; subst. congruence.
        -- case_decide as Hk.
           ++ inversion Hk; subst. by rewrite lookup_insert_eq.
           ++ by rewrite lookup_insert_ne.
    + destruct (is_element s z'); [done|]. by rewrite lookup_insert_ne.
  - destruct k as [z|]; simpl.
    + destruct (is_element s z); simpl; [done|]. by rewrite lookup_insert_ne.
    + by rewrite lookup_insert_eq.
Qed.

Lemma storage_set_set s k v v' :
  storage_set (storage_set s k v) k v' = storage_set s k v'.
Proof.
  destruct k as [z|]; simpl.
  - destruct (is_element s z) eqn:E; simpl.
    + unfold is_element in *; simpl. rewrite length_insert, E.
      by rewrite list_insert_insert_eq.
    + unfold is_element in *; simpl. rewrite E. by rewrite insert_insert_eq.
  - by rewrite insert_insert_eq.
Qed.

Lemma store_write_slot w c k v c' :
  store (write_slot c k v w) c' =
  if decide (c = c') then storage_set (store w c) k v else store w c'.
Proof.
  unfold store, write_slot. rewrite cont_update_cont. by case_decide.
Qed.

Lemma size_write_slot w c k v c' : size (write_slot c k v w) c' = size w c'.
Proof.
  unfold size. rewrite store_write_slot. case_decide; [|done].
  subst. by rewrite storage_set_length.
Qed.

Lemma occupants_write_slot w c k v c' :
  occupants (cont (write_slot c k v w) c') = occupants (cont w c').
Proof.
  unfold write_slot. rewrite cont_update_cont. by case_decide; subst.
Qed.

(** * The identifier allocator *)

Section Allocator.

Variables First Last : Z.
Hypothesis First_le_Last : First <= Last.

Lemma getNextContainerId_bound w :
  First <= nextContainerId w <= Last + 1 ->
  First <= fst (getNextContainerId First Last w) <= Last /\
  First <= nextContainerId (snd (getNextContainerId First Last w)) <= Last + 1.
Proof.
  intros H. unfold getNextContainerId.
  destruct (nextContainerId w >? Last) eqn:E; simpl; lia.
Qed.

Lemma getNextContainerId_step w :
  nextContainerId w <= Last ->
  fst (getNextContainerId First Last w) = nextContainerId w /\
  nextContainerId (snd (getNextContainerId First Last w)) = nextContainerId w + 1.
Proof.
  intros H. unfold getNextContainerId.
  destruct (nextContainerId w >? Last) eqn:E; simpl; lia.
Qed.

Lemma getNextContainerId_wrap w :
  Last < nextContainerId w ->
  fst (getNextContainerId First Last w) = First /\
  nextContainerId (snd (getNextContainerId First Last w)) = First.
Proof.
  intros H. unfold getNextContainerId.
  destruct (nextContainerId w >? Last) eqn:E; simpl; lia.
Qed.

(** Every identifier the allocator hands out lies in [[First, Last]]. *)
Lemma allocate_bound n w :
  First <= nextContainerId w <= Last + 1 ->
  Forall (fun id => First <= id <= Last) (fst (allocate First Last n w)) /\
  First <= nextContainerId (snd (allocate First Last n w)) <= Last + 1.
Proof.
  revert w. induction n as [|n IH]; intros w H; simpl; [by split|].
  destruct (getNextContainerId_bound w H) as [Hid Hnext].
  destruct (getNextContainerId First Last w) as [id w1]; simpl in *.
  specialize (IH w1 Hnext).
  destruct (allocate First Last n w1) as [ids w2]; simpl in *.
  destruct IH. split; [by constructor|done].
Qed.

(** After the call that returns [Last], the next call returns [First] and
    leaves the counter at [First] itself, so the call after it returns
    [First] once more. *)
Lemma getNextContainerId_after_Last w :
  nextContainerId w = Last ->
  fst (allocate First Last 3 w) = [Last; First; First].
Proof.
  intros H. simpl.
  destruct (getNextContainerId_step w ltac:(lia)) as [E1 N1].
  destruct (getNextContainerId First Last w) as [id1 w1]; simpl in *.
  destruct (getNextContainerId_wrap w1 ltac:(lia)) as [E2 N2].
  destruct (getNextContainerId First Last w1) as [id2 w2]; simpl in *.
  destruct (getNextContainerId_step w2 ltac:(lia)) as [E3 N3].
  destruct (getNextContainerId First Last w2) as [id3 w3]; simpl in *.
  congruence.
Qed.

End Allocator.

(** C5. With the protocol's range [[1, 100]], the first hundred identifiers
    are 1 to 100 and the next one wraps to 1; the call after the wrap returns
    1 again rather than 2, because wrapping resets the counter to [First]
    without stepping past the identifier it has just returned. *)
Theorem allocator_repeats_First :
  fst (allocate 1 100 103 (initial 1)) = map Z.of_nat (seq 1 100) ++ [1; 1; 2].
Proof. vm_compute. reflexivity. Qed.

(** * Resizing *)

Lemma resized_array (l : list (option ref)) (n : nat) :
  map (fun i : nat => mjoin (take n l !! i)) (seq 0 n) =
  take n l ++ replicate (n - length l) None.
Proof.
  apply list_eq. intros i.
  rewrite list_lookup_fmap.
  destruct (decide (i < n)%nat) as [Hi|Hi].
  - rewrite lookup_seq_lt by done. simpl.
    destruct (decide (i < length l)%nat) as [Hl|Hl].
    + rewrite lookup_app_l by (rewrite length_take; lia).
      destruct (take n l !! i) eqn:E; [done|].
      apply lookup_ge_None in E. rewrite length_take in E. lia.
    + rewrite lookup_app_r by (rewrite length_take; lia).
      rewrite (proj2 (lookup_ge_None (take n l) i)) by (rewrite length_take; lia).
      simpl. symmetry. apply lookup_replicate. split; [done|].
      rewrite length_take. lia.
  - rewrite lookup_seq_ge by lia. simpl. symmetry.
    apply lookup_ge_None. rewrite length_app, length_take, length_replicate. lia.
Qed.

(** C9. Setting the size throws exactly when the new size is negative.
    Otherwise the new storage is the old one cut to the new length, followed
    by empty slots up to the new length: the slots below both lengths keep
    their content, the added slots are empty, the slots past the new length
    are dropped, and nothing moves. *)
Theorem set_size_spec (c : cref) (value : Z) (w : World) :
  (set_size c value w = Throw NegativeSize <-> value < 0) /\
  (0 <= value ->
   exists w', set_size c value w = Ok w' /\
     size w' c = value /\
     elems (store w' c) =
       take (Z.to_nat value) (elems (store w c)) ++
       replicate (Z.to_nat value - length (elems (store w c))) None /\
     (forall i : nat, Z.of_nat i < Z.min (size w c) value ->
        elems (store w' c) !! i = elems (store w c) !! i) /\
     (forall i : nat, size w c <= Z.of_nat i < value ->
        elems (store w' c) !! i = Some None)).
Proof.
  unfold set_size. split.
  - destruct (value <? 0) eqn:E.
    + split; [lia|done].
    + split; [done|lia].
  - intros Hv. destruct (value <? 0) eqn:E; [lia|].
    eexists. split; [done|].
    assert (Hel : elems (store (update_cont c
               (with_storage
                  (mkStorage
                     (map (fun i : nat =>
                             mjoin (take (Z.to_nat value) (elems (store w c)) !! i))
                          (seq 0 (Z.to_nat value))) ∅)) w) c) =
            take (Z.to_nat value) (elems (store w c)) ++
            replicate (Z.to_nat value - length (elems (store w c))) None).
    { unfold store at 1. rewrite cont_update_cont_eq. simpl. apply resized_array. }
    unfold size in *. rewrite Hel.
    split; [|split; [done|split]].
    + rewrite length_app, length_take, length_replicate. lia.
    + intros i Hi. rewrite lookup_app_l by (rewrite length_take; lia).
      apply lookup_take_lt. lia.
    + intros i Hi. rewrite lookup_app_r by (rewrite length_take; lia).
      apply lookup_replicate. split; [done|]. rewrite length_take. lia.
Qed.

Lemma set_size_spec_witness :
  exists w', set_size 0%nat 2
               (world_of [] [Some 10; Some 11; Some 12; Some 13; Some 14]%nat []) = Ok w' /\
    elems (store w' 0%nat) = [Some 10; Some 11]%nat.
Proof.
  destruct (set_size_spec 0%nat 2
              (world_of [] [Some 10; Some 11; Some 12; Some 13; Some 14]%nat []))
    as [_ H].
  destruct H as (w' & Hw & _ & Hel & _); [lia|].
  exists w'. split; [exact Hw|]. rewrite Hel. reflexivity.
Defined.

(** * Reading a slot *)

Section Slots.

Variable equals : ItemStack -> ItemStack -> bool.
Variable Air : string.

Lemma getItem_js_rem c slot w :
  getItem c (js_rem slot (size w c)) w = getItem c slot w.
Proof. unfold getItem. by rewrite js_rem_idem. Qed.

(** A slot index that is not negative is reduced into [[0, size)], and
    [getItem] returns what that element holds. *)
Lemma getItem_nonneg c z w :
  0 <= z -> 0 < size w c ->
  0 <= z mod size w c < size w c /\
  getItem c (Int z) w = mjoin (elems (store w c) !! Z.to_nat (z mod size w c)).
Proof.
  intros Hz Hn. destruct (js_rem_nonneg z (size w c) Hz Hn) as [E B].
  split; [done|]. unfold getItem. rewrite E. simpl.
  unfold is_element. fold (size w c).
  destruct (0 <=? z mod size w c) eqn:E1; [|lia].
  destruct (z mod size w c <? size w c) eqn:E2; [done|lia].
Qed.

Lemma getItem_write_slot c k v w :
  getItem c k (write_slot c (js_rem k (size w c)) v w) = v.
Proof.
  unfold getItem. rewrite size_write_slot, store_write_slot.
  case_decide; [|done]. rewrite storage_get_set. by case_decide.
Qed.

Lemma getItem_update_stack c k r f w :
  getItem c k (update_stack r f w) = getItem c k w.
Proof. done. Qed.

(** * Removing from a slot *)

(** [removeItem] changes the stored stack itself: its size drops by
    [min amount size] and the slot is emptied when nothing is left; the
    stack it returns is that same object. *)
Lemma removeItem_decrements (c : cref) (slot : index) (amount : Z) (w : World) :
  match getItem c slot w with
  | None => removeItem c slot amount w = (None, w)
  | Some item =>
      let w' := snd (removeItem c slot amount w) in
      fst (removeItem c slot amount w) = Some item /\
      getStackSize w' item = getStackSize w item - Z.min amount (getStackSize w item) /\
      getItem c slot w' = (if getStackSize w' item =? 0 then None else Some item)
  end.
Proof.
  unfold removeItem. rewrite getItem_js_rem.
  destruct (getItem c slot w) as [item|] eqn:G; [|done].
  set (removed := Z.min amount (getStackSize w item)).
  assert (Hs : getStackSize (decrementStack item removed w) item
               = getStackSize w item - removed).
  { unfold getStackSize, decrementStack, setStackSize.
    by rewrite stack_update_stack_eq. }
  destruct (getStackSize (decrementStack item removed w) item =? 0) eqn:E; simpl.
  - split; [done|]. split; [done|].
    change (getStackSize (write_slot c (js_rem slot (size w c)) None
                            (decrementStack item removed w)) item)
      with (getStackSize (decrementStack item removed w) item).
    rewrite E.
    change (size w c) with (size (decrementStack item removed w) c).
    apply getItem_write_slot.
  - split; [done|]. split; [done|]. by rewrite E.
Qed.

End Slots.

(** C7. On a container of nine slots whose last slot holds a stack, the
    index [-1] is not brought into [[0, 9)]: the remainder keeps the sign of
    the index, [-1 % 9] is [-1], and [getItem(-1)] finds nothing, although
    the slot that [-1] denotes modulo nine, slot 8, is occupied. *)
Theorem getItem_negative_slot :
  let w := world_of [plain stone 1]
             [None; None; None; None; None; None; None; None; Some 0%nat] [] in
  size w 0%nat = 9 /\
  js_rem (Int (-1)) (size w 0%nat) = Int (-1) /\
  getItem 0%nat (Int (-1)) w = None /\
  getItem 0%nat (Int ((-1) mod 9)) w = Some 0%nat.
Proof. vm_compute. done. Qed.

(** * Writing a slot *)

Section SetItem.

Variable Air : string.

Lemma emit_nil w : emit [] w = w.
Proof. destruct w. unfold emit; simpl. by rewrite app_nil_r. Qed.

Lemma updateSlot_events c k w :
  exists d, events (updateSlot c k w) =
    events w ++ map (fun pv => Send (fst pv) (InventorySlotPacket (snd pv) k d))
                    (occupants (cont w c)).
Proof.
  unfold updateSlot. eexists. simpl. f_equal.
  apply map_ext. by intros [p id].
Qed.

Lemma stack_updateSlot c k w r : stack (updateSlot c k w) r = stack w r.
Proof. done. Qed.

Lemma cont_updateSlot c k w c' : cont (updateSlot c k w) c' = cont w c'.
Proof. done. Qed.

(** Clearing a slot is writing [null] and then notifying: with no occupant
    the notification sends nothing. *)
Lemma clearSlot_unfold c k w :
  clearSlot c k w =
  updateSlot c (js_rem k (size w c)) (write_slot c (js_rem k (size w c)) None w).
Proof.
  unfold clearSlot. case_decide as H; [|done].
  unfold updateSlot. apply nil_length_inv in H. rewrite H. simpl.
  by rewrite emit_nil.
Qed.

Lemma stack_clearSlot c k w r : stack (clearSlot c k w) r = stack w r.
Proof. by rewrite clearSlot_unfold. Qed.

Lemma store_clearSlot c k w c' :
  store (clearSlot c k w) c' =
  if decide (c = c') then storage_set (store w c) (js_rem k (size w c)) None
  else store w c'.
Proof.
  rewrite clearSlot_unfold. unfold store at 1. rewrite cont_updateSlot.
  apply store_write_slot.
Qed.

Lemma size_clearSlot c k w c' : size (clearSlot c k w) c' = size w c'.
Proof.
  unfold size. rewrite store_clearSlot. case_decide; [|done].
  subst. by rewrite storage_set_length.
Qed.

Lemma occupants_clearSlot c k w c' :
  occupants (cont (clearSlot c k w) c') = occupants (cont w c').
Proof.
  rewrite clearSlot_unfold, cont_updateSlot. apply occupants_write_slot.
Qed.

Lemma getItem_clearSlot c k w : getItem c k (clearSlot c k w) = None.
Proof.
  unfold getItem. rewrite size_clearSlot, store_clearSlot.
  case_decide; [|done]. rewrite storage_get_set. by case_decide.
Qed.

Lemma store_setItem c k item w c' :
  store (setItem Air c k item w) c' =
  if decide (c = c')
  then storage_set (store w c) (js_rem k (size w c))
         (if storable Air w item then Some item else None)
  else store w c'.
Proof.
  unfold setItem, storable.
  change (getStackSize (write_slot c (js_rem k (size w c)) (Some item) w) item)
    with (getStackSize w item).
  change (stack (write_slot c (js_rem k (size w c)) (Some item) w) item)
    with (stack w item).
  set (k' := js_rem k (size w c)).
  destruct ((getStackSize w item =? 0)
            || bool_decide (identifier (type (stack w item)) = Air)); simpl.
  - unfold store at 1. rewrite cont_updateSlot, cont_update_stack.
    fold (store (clearSlot c k' (write_slot c k' (Some item) w)) c').
    rewrite store_clearSlot, size_write_slot, !store_write_slot.
    case_decide; [|done]. subst k'. rewrite js_rem_idem.
    rewrite (decide_True (P := c = c)) by done. by rewrite storage_set_set.
  - unfold store at 1. rewrite cont_updateSlot, cont_update_stack.
    apply store_write_slot.
Qed.

Lemma size_setItem c k item w c' : size (setItem Air c k item w) c' = size w c'.
Proof.
  unfold size. rewrite store_setItem. case_decide; [|done].
  subst. by rewrite storage_set_length.
Qed.

Lemma getItem_setItem c k item w :
  getItem c k (setItem Air c k item w) = if storable Air w item then Some item else None.
Proof.
  unfold getItem. rewrite size_setItem, store_setItem.
  case_decide; [|done]. rewrite storage_get_set. by case_decide.
Qed.

Lemma stack_setItem c k item w r :
  stack (setItem Air c k item w) r =
  if decide (item = r) then with_container (Some c) (stack w item) else stack w r.
Proof.
  unfold setItem. rewrite stack_updateSlot, stack_update_stack.
  destruct (_ || _); [by rewrite !stack_clearSlot|done].
Qed.

Lemma occupants_setItem c k item w c' :
  occupants (cont (setItem Air c k item w) c') = occupants (cont w c').
Proof.
  unfold setItem. rewrite cont_updateSlot, cont_update_stack.
  destruct (_ || _); [rewrite occupants_clearSlot|]; apply occupants_write_slot.
Qed.


End SetItem.


Lemma setItem_cleared_twice_notified :
  let w := world_of [plain stone 0] [None] [(7%nat, 1)] in
  let w' := setItem air 0%nat (Int 0) 0%nat w in
  getItem 0%nat (Int 0) w' = None /\
  container (stack w 0%nat) = None /\
  container (stack w' 0%nat) = Some 0%nat /\
  events w' = [Send 7%nat (InventorySlotPacket 1 (Int 0) EmptyDescriptor);
               Send 7%nat (InventorySlotPacket 1 (Int 0) EmptyDescriptor)].
Proof. vm_compute. done. Qed.

(** * Swapping two slots *)

Section Swap.

Variable Air : string.

Lemma read_clearSlot c k w c' k' :
  storage_get (store (clearSlot c k w) c') k' =
  if decide (c = c' /\ js_rem k (size w c) = k') then None
  else storage_get (store w c') k'.
Proof.
  rewrite store_clearSlot. case_decide as Hc.
  - subst c'. rewrite storage_get_set.
    repeat case_decide; destruct_and?; try done; tauto.
  - case_decide; [|done]. destruct_and?; done.
Qed.

Lemma read_setItem c k item w c' k' :
  storage_get (store (setItem Air c k item w) c') k' =
  if decide (c = c' /\ js_rem k (size w c) = k')
  then (if storable Air w item then Some item else None)
  else storage_get (store w c') k'.
Proof.
  rewrite store_setItem. case_decide as Hc.
  - subst c'. rewrite storage_get_set.
    repeat case_decide; destruct_and?; try done; tauto.
  - case_decide; [|done]. destruct_and?; done.
Qed.

Lemma storable_clearSlot c k w r :
  storable Air (clearSlot c k w) r = storable Air w r.
Proof. unfold storable, getStackSize. by rewrite stack_clearSlot. Qed.

Lemma storable_setItem c k item w r :
  storable Air (setItem Air c k item w) r = storable Air w r.
Proof.
  unfold storable, getStackSize. rewrite stack_setItem.
  by case_decide; subst.
Qed.

Lemma size_swapItems c a b oc w c' :
  size (swapItems Air c a b oc w) c' = size w c'.
Proof.
  unfold swapItems.
  destruct (getItem (default c oc) _ w), (getItem c _ w);
    rewrite ?size_setItem, ?size_clearSlot; done.
Qed.

Lemma storable_swapItems c a b oc w r :
  storable Air (swapItems Air c a b oc w) r = storable Air w r.
Proof.
  unfold swapItems.
  destruct (getItem (default c oc) _ w), (getItem c _ w);
    rewrite ?storable_setItem, ?storable_clearSlot; done.
Qed.

(** What every key of every storage reads after one swap. *)
Lemma read_swapItems c a b oc w c' k' :
  let t := default c oc in
  let ka := js_rem a (size w c) in
  let kb := js_rem b (size w t) in
  (forall r, getItem c a w = Some r -> storable Air w r = true) ->
  (forall r, getItem t b w = Some r -> storable Air w r = true) ->
  storage_get (store (swapItems Air c a b oc w) c') k' =
  if decide (c = c' /\ ka = k') then getItem t b w
  else if decide (t = c' /\ kb = k') then getItem c a w
  else storage_get (store w c') k'.
Proof.
  intros t ka kb Ha Hb. unfold swapItems.
  rewrite !getItem_js_rem. fold t. fold ka kb.
  assert (Ea : getItem c a w = storage_get (store w c) ka) by done.
  assert (Eb : getItem t b w = storage_get (store w t) kb) by done.
  assert (Ika : js_rem ka (size w c) = ka) by apply js_rem_idem.
  assert (Ikb : js_rem kb (size w t) = kb) by apply js_rem_idem.
  clearbody t ka kb.
  destruct (getItem t b w) as [other|] eqn:Gb;
    destruct (getItem c a w) as [item|] eqn:Ga;
    rewrite ?read_setItem, ?size_setItem, ?size_clearSlot,
            ?storable_setItem, ?storable_clearSlot,
            ?read_clearSlot, ?size_clearSlot, ?Ika, ?Ikb,
            ?(Ha _ eq_refl), ?(Hb _ eq_refl);
    repeat case_decide; destruct_and?; subst; try done; try congruence.
  all: try (exfalso; tauto).
  all: try (rewrite <- ?Ea, <- ?Eb; tauto).
Qed.

Lemma elems_eq_of_reads (s1 s2 : Storage) :
  length (elems s1) = length (elems s2) ->
  (forall k, storage_get s1 k = storage_get s2 k) ->
  elems s1 = elems s2.
Proof.
  intros Hlen Hread. apply list_eq. intros i.
  destruct (decide (i < length (elems s1))%nat) as [Hi|Hi].
  - specialize (Hread (Int (Z.of_nat i))). simpl in Hread.
    unfold is_element in Hread. rewrite <- Hlen in Hread.
    destruct (0 <=? Z.of_nat i) eqn:E1; [|lia].
    destruct (Z.of_nat i <? Z.of_nat (length (elems s1))) eqn:E2; [|lia].
    simpl in Hread. rewrite Nat2Z.id in Hread.
    destruct (lookup_lt_is_Some_2 (elems s1) i Hi) as [x1 H1].
    destruct (lookup_lt_is_Some_2 (elems s2) i ltac:(lia)) as [x2 H2].
    rewrite H1, H2 in *. simpl in Hread. by subst.
  - rewrite !(proj2 (lookup_ge_None _ _)) by lia. done.
Qed.

Lemma getItem_element c z w :
  0 <= z -> 0 < size w c ->
  elems (store w c) !! Z.to_nat (z mod size w c) = Some (getItem c (Int z) w).
Proof.
  intros Hz Hn. destruct (js_rem_nonneg z (size w c) Hz Hn) as [E B].
  unfold getItem. rewrite E. cbn [storage_get].
  unfold is_element. fold (size w c).
  destruct (0 <=? z mod size w c) eqn:E1; [|lia].
  destruct (z mod size w c <? size w c) eqn:E2; [|lia]. cbn [andb].
  destruct (lookup_lt_is_Some_2 (elems (store w c)) (Z.to_nat (z mod size w c)))
    as [x Hx]; [unfold size in *; lia|].
  by rewrite Hx.
Qed.


End Swap.



Lemma chest_with_zeroed_sword_slots :
  elems (store chest_with_zeroed_sword 0%nat) = [Some 0%nat; None] /\
  getStackSize chest_with_zeroed_sword 0%nat = 0 /\
  elems (store (swapItems air 0%nat (Int 0) (Int 1) None
                  (swapItems air 0%nat (Int 0) (Int 1) None chest_with_zeroed_sword))
               0%nat) = [None; None].
Proof. vm_compute. done. Qed.

(** * Showing and closing *)

Section Occupancy.

Variables First Last : Z.

Lemma occ_get_set o p v q :
  occ_get (occ_set o p v) q = if decide (p = q) then Some v else occ_get o q.
Proof.
  induction o as [|[q' u] o IH]; simpl.
  - by repeat case_decide.
  - repeat (case_decide; simpl; subst); try done; try congruence.
Qed.

Lemma occ_get_delete o p q :
  occ_get (occ_delete o p) q = if decide (p = q) then None else occ_get o q.
Proof.
  unfold occ_delete.
  induction o as [|[q' u] o IH]; simpl.
  - by case_decide.
  - rewrite filter_cons. simpl.
    repeat (case_decide; simpl; subst); try done; try congruence.
Qed.

Lemma trait_events_emit mk c p es w :
  trait_events mk c p (emit es w) = trait_events mk c p w.
Proof. done. Qed.

Lemma cont_close x p b w w1 :
  close x p b w = Ok w1 ->
  forall c, cont w1 c =
    if decide (x = c)
    then with_occupants (occ_delete (occupants (cont w x)) p) (cont w x)
    else cont w c.
Proof.
  unfold close. destruct (occ_get _ p); [|done].
  intros [= <-] c. unfold cont; simpl. by rewrite lookup_total_insert.
Qed.

Lemma getNextContainerId_cont w c :
  cont (snd (getNextContainerId First Last w)) c = cont w c.
Proof. unfold getNextContainerId. by destruct (_ >? _). Qed.

Lemma cont_register c p w c' :
  cont (snd (register First Last c p w)) c' =
  if decide (c = c')
  then with_occupants
         (occ_set (occupants (cont w c)) p (fst (getNextContainerId First Last w)))
         (cont w c)
  else cont w c'.
Proof.
  unfold register.
  pose proof (getNextContainerId_cont w) as Hc.
  destruct (getNextContainerId First Last w) as [id w0]; simpl in *.
  unfold cont in *; simpl. rewrite lookup_total_insert.
  unfold cont. by rewrite !Hc.
Qed.

Lemma openedContainer_register c p w :
  openedContainer (snd (register First Last c p w)) !! p = Some c.
Proof.
  unfold register. destruct (getNextContainerId First Last w) as [id w0]; simpl.
  apply lookup_insert_eq.
Qed.

(** Closing the container a consistent player has open succeeds: the player
    receives the close packet, is removed from the occupants, and is then an
    occupant of no container. *)
Lemma close_opened w p x b :
  consistent w p -> openedContainer w !! p = Some x ->
  exists id w1,
    occ_get (occupants (cont w x)) p = Some id /\
    close x p b w = Ok w1 /\
    (forall c, ~ viewing w1 c p) /\
    openedContainer w1 !! p = None /\
    events w1 = events w ++
      Send p (ContainerClosePacket id (ctype (cont w x)) b)
      :: trait_events OnContainerClose x p w.
Proof.
  intros Hc Ho.
  destruct (proj2 (Hc x) Ho) as [id Hid].
  destruct (close x p b w) as [w1|e] eqn:Hcl; unfold close in Hcl; rewrite Hid in Hcl;
    [|done].
  exists id, w1. split; [done|]. split; [done|].
  assert (Hcont := cont_close x p b w w1).
  unfold close in Hcont. rewrite Hid in Hcont. specialize (Hcont Hcl).
  split; [|split].
  - intros c [v Hv]. rewrite Hcont in Hv. case_decide as E.
    + subst. simpl in Hv. rewrite occ_get_delete in Hv. by case_decide.
    + assert (viewing w c p) as Hvw by (by exists v).
      apply Hc in Hvw. congruence.
  - inversion Hcl. simpl. apply lookup_delete_eq.
  - injection Hcl as <-. simpl. rewrite <- app_assoc. simpl. do 2 f_equal.
    unfold trait_events, store. rewrite cont_update_cont_eq. done.
Qed.

(** Registering a player who views nothing makes [c] the one container the
    player views. *)
Lemma register_single w p c :
  (forall c', ~ viewing w c' p) ->
  let w' := snd (register First Last c p w) in
  openedContainer w' !! p = Some c /\
  (forall c', viewing w' c' p <-> c' = c).
Proof.
  intros Hn. simpl. split; [apply openedContainer_register|].
  intros c'. unfold viewing. rewrite cont_register. case_decide as E.
  - subst. simpl. rewrite occ_get_set, decide_True by done. split; eauto.
  - split; [|congruence]. intros H. by apply Hn in H.
Qed.

Lemma show_consistent w p c :
  consistent w p ->
  exists id w', show First Last c p w = Ok (id, w') /\
    openedContainer w' !! p = Some c /\
    (forall c', viewing w' c' p <-> c' = c).
Proof.
  intros Hc. unfold show.
  destruct (openedContainer w !! p) as [x|] eqn:Ho.
  - destruct (close_opened w p x true Hc Ho) as (id & w1 & _ & Hcl & Hn & _).
    rewrite Hcl.
    destruct (register_single w1 p c Hn) as [H1 H2].
    destruct (register First Last c p w1) as [id' w']. eauto.
  - assert (Hn : forall c', ~ viewing w c' p).
    { intros c' H. apply Hc in H. congruence. }
    destruct (register_single w p c Hn) as [H1 H2].
    destruct (register First Last c p w) as [id' w']. eauto.
Qed.

Lemma single_consistent w p c :
  openedContainer w !! p = Some c ->
  (forall c', viewing w c' p <-> c' = c) ->
  consistent w p.
Proof.
  intros Ho Hv c'. rewrite Hv, Ho. split; congruence.
Qed.

(** C6. A player whose open-container record agrees with the occupants (as
    for a player who has opened nothing yet) calls [show] on any containers,
    ending with [c]: no call throws, and afterwards [c] is the player's open
    container and the one container that lists the player as occupant.  When
    a container [x] was open at a call, that call first closes [x] for the
    player, who gets the server-initiated close packet and is dropped from
    the occupants of [x], and only then registers with the new container. *)
Theorem show_single_open (w : World) (p : Player) (cs : list cref) (c : cref) :
  consistent w p ->
  (exists w', shows First Last (cs ++ [c]) p w = Ok w' /\
     openedContainer w' !! p = Some c /\
     (forall c', viewing w' c' p <-> c' = c)) /\
  (forall x, openedContainer w !! p = Some x ->
     exists id w1,
       occ_get (occupants (cont w x)) p = Some id /\
       close x p true w = Ok w1 /\
       events w1 = events w ++
         Send p (ContainerClosePacket id (ctype (cont w x)) true)
         :: trait_events OnContainerClose x p w /\
       (forall c', ~ viewing w1 c' p) /\
       openedContainer w1 !! p = None /\
       show First Last c p w = Ok (register First Last c p w1)).
Proof.
  intros Hc. split.
  - revert w Hc. induction cs as [|c0 cs IH]; intros w Hc; simpl.
    + destruct (show_consistent w p c Hc) as (id & w' & -> & H1 & H2). eauto.
    + destruct (show_consistent w p c0 Hc) as (id & w' & -> & H1 & H2).
      apply IH. by apply (single_consistent _ _ c0).
  - intros x Ho.
    destruct (close_opened w p x true Hc Ho) as (id & w1 & H1 & H2 & H3 & H4 & H5).
    exists id, w1. repeat (split; [done|]).
    unfold show. by rewrite Ho, H2.
Qed.

End Occupancy.

Lemma two_chests_consistent (p : Player) : consistent two_chests p.
Proof.
  intros c. unfold viewing.
  assert (E : occ_get (occupants (cont two_chests c)) p = None).
  { unfold cont, two_chests; simpl. rewrite lookup_total_alt.
    destruct (decide (c = 0%nat)) as [->|]; [by rewrite lookup_insert_eq|].
    rewrite lookup_insert_ne by done.
    destruct (decide (c = 1%nat)) as [->|]; [by rewrite lookup_insert_eq|].
    by rewrite lookup_insert_ne, lookup_empty by done. }
  rewrite E. split; [by intros [? ?]|]. by unfold two_chests; simpl.
Defined.

Lemma show_single_open_witness :
  exists w', shows First_id Last_id [0; 1; 0; 1]%nat 7%nat two_chests = Ok w' /\
    openedContainer w' !! 7%nat = Some 1%nat /\
    (forall c', viewing w' c' 7%nat <-> c' = 1%nat).
Proof.
  exact (proj1 (show_single_open First_id Last_id two_chests 7%nat [0; 1; 0]%nat 1%nat
                  (two_chests_consistent 7%nat))).
Defined.

(** * Taking from a slot *)

Section Take.

Lemma foldl_update_stack {B} (r : ref) (g : B -> ItemStack -> ItemStack)
    (l : list B) (w : World) :
  let w' := foldl (fun w x => update_stack r (g x) w) w l in
  containers w' = containers w /\
  traitObjs w' = traitObjs w /\
  events w' = events w /\
  (forall r0, r0 ≠ r -> stack w' r0 = stack w r0) /\
  stack w' r = foldl (fun i x => g x i) (stack w r) l.
Proof.
  revert w. induction l as [|x l IH]; intros w; simpl; [done|].
  destruct (IH (update_stack r (g x) w)) as (H1 & H2 & H3 & H4 & H5).
  rewrite H1, H2, H3, H5. repeat split; try done.
  - intros r0 Hr. rewrite H4 by done. by rewrite stack_update_stack_ne.
  - by rewrite stack_update_stack_eq.
Qed.

Lemma foldl_insert_all (l : list (string * string)) (m0 : gmap string string) :
  NoDup (l.*1) ->
  foldl (fun m kv => <[fst kv := snd kv]> m) m0 l = list_to_map l ∪ m0.
Proof.
  revert m0. induction l as [|[k v] l IH]; intros m0 Hnd; simpl.
  - by rewrite (left_id_L ∅ (∪)).
  - inversion Hnd as [|? ? Hk Hnd']; subst.
    rewrite IH by done.
    rewrite <- insert_union_l. symmetry.
    apply insert_union_r. by apply not_elem_of_list_to_map_1.
Qed.

Lemma foldl_insert_map_to_list (m : gmap string string) :
  foldl (fun m' kv => <[fst kv := snd kv]> m') ∅ (map_to_list m) = m.
Proof.
  rewrite foldl_insert_all by apply NoDup_fst_map_to_list.
  by rewrite list_to_map_to_list, (right_id_L ∅ (∪)).
Qed.

Lemma foldl_with_dynamicProperties (l : list (string * string)) (i : ItemStack) :
  foldl (fun i kv => with_dynamicProperties
                       (<[fst kv := snd kv]> (dynamicProperties i)) i) i l =
  with_dynamicProperties
    (foldl (fun m kv => <[fst kv := snd kv]> m) (dynamicProperties i) l) i.
Proof.
  revert i. induction l as [|kv l IH]; intros i; simpl; [by destruct i|].
  by rewrite IH.
Qed.

Lemma foldl_with_nbt (l : list (string * string)) (i : ItemStack) :
  foldl (fun i kv => with_nbt (<[fst kv := snd kv]> (nbt i)) i) i l =
  with_nbt (foldl (fun m kv => <[fst kv := snd kv]> m) (nbt i) l) i.
Proof.
  revert i. induction l as [|kv l IH]; intros i; simpl; [by destruct i|].
  by rewrite IH.
Qed.

Lemma foldl_ext_in {A B} (f g : A -> B -> A) (l : list B) (a : A) :
  (forall a x, f a x = g a x) -> foldl f a l = foldl g a l.
Proof.
  intros H. revert a. induction l as [|x l IH]; intros a; simpl; [done|].
  by rewrite H, IH.
Qed.

Lemma Forall2_with_left {A B} (P : A -> Prop) (Q : A -> B -> Prop) l k :
  Forall P l -> Forall2 Q l k -> Forall2 (fun x y => P x /\ Q x y) l k.
Proof.
  intros HP HQ. revert HP. induction HQ; intros HP; [constructor|].
  inversion HP; subst. constructor; auto.
Qed.

Lemma with_traits_nil (i : ItemStack) : with_traits (traits i ++ []) i = i.
Proof. destruct i. unfold with_traits; simpl. by rewrite app_nil_r. Qed.

(** Cloning the traits in [l] onto the stack [r]: each clone is a new trait
    object attached to [r]; the traits that existed are not touched. *)
Lemma foldl_clone (r : ref) (l : list tref) (w : World) :
  Forall (fun t => t ∈ dom (traitObjs w)) l ->
  let w' := foldl (fun w trait =>
                     let '(cloned, w) := clone_trait trait r w in
                     addTrait r cloned w) w l in
  containers w' = containers w /\
  events w' = events w /\
  (forall r0, r0 ≠ r -> stack w' r0 = stack w r0) /\
  (forall t, t ∈ dom (traitObjs w) -> traitObjs w' !! t = traitObjs w !! t) /\
  exists ts,
    stack w' r = with_traits (traits (stack w r) ++ ts) (stack w r) /\
    Forall2 (fun t t' =>
               (t' ∉ dom (traitObjs w)) /\
               traitObjs w' !!! t' =
                 mkTrait (trait_identifier (traitObjs w !!! t)) r
                         (trait_state (traitObjs w !!! t))) l ts.
Proof.
  revert w. induction l as [|t l IH]; intros w Hall; cbn [foldl].
  - repeat split; try done. exists []. split; [by rewrite with_traits_nil|constructor].
  - inversion Hall as [|? ? Ht Hl]; subst.
    set (t1 := fresh (dom (traitObjs w))).
    set (cl := mkTrait (trait_identifier (traitObjs w !!! t)) r
                       (trait_state (traitObjs w !!! t))).
    set (w1 := addTrait r t1 (set_traitObjs (fun m => <[t1 := cl]> m) w)).
    assert (Hfresh : t1 ∉ dom (traitObjs w)) by apply is_fresh.
    assert (Hobjs : traitObjs w1 = <[t1 := cl]> (traitObjs w)) by done.
    assert (Hl1 : Forall (fun t => t ∈ dom (traitObjs w1)) l).
    { eapply Forall_impl; [exact Hl|]. intros x Hx. simpl in Hx.
      rewrite Hobjs, dom_insert_L. apply elem_of_union. by right. }
    change (let '(cloned, w0) := clone_trait t r w in addTrait r cloned w0) with w1.
    destruct (IH w1 Hl1) as (H1 & H2 & H3 & H4 & ts & H5 & H6).
    split; [by rewrite H1|]. split; [by rewrite H2|].
    split; [|split].
    + intros r0 Hr. rewrite H3 by done. unfold w1, addTrait.
      by rewrite stack_update_stack_ne.
    + intros x Hx. rewrite H4.
      * rewrite Hobjs. apply lookup_insert_ne. intros ->. done.
      * rewrite Hobjs, dom_insert_L. apply elem_of_union. by right.
    + exists (t1 :: ts). split.
      * rewrite H5. unfold w1, addTrait. rewrite stack_update_stack_eq.
        change (stack (set_traitObjs _ w) r) with (stack w r).
        unfold with_traits; simpl. by rewrite <- app_assoc.
      * constructor.
        -- split; [done|]. rewrite lookup_total_alt, H4.
           ++ by rewrite Hobjs, lookup_insert_eq.
           ++ rewrite Hobjs, dom_insert_L. apply elem_of_union. left.
              by apply elem_of_singleton.
        -- eapply Forall2_impl; [exact (Forall2_with_left _ _ _ _ Hl H6)|].
           intros x y (Hx & Hy1 & Hy2). cbv beta in *. split.
           ++ rewrite Hobjs, dom_insert_L in Hy1. intros Hin. apply Hy1.
              apply elem_of_union. by right.
           ++ rewrite Hy2, Hobjs, lookup_total_insert_ne; [done|].
              intros ->. done.
Qed.

Lemma foldl_setDynamicProperty (r : ref) (l : list (string * string)) (w : World) :
  let w' := foldl (fun w '(key, value) => setDynamicProperty r key value w) w l in
  containers w' = containers w /\
  traitObjs w' = traitObjs w /\
  events w' = events w /\
  (forall r0, r0 ≠ r -> stack w' r0 = stack w r0) /\
  stack w' r =
    with_dynamicProperties
      (foldl (fun m kv => <[fst kv := snd kv]> m) (dynamicProperties (stack w r)) l)
      (stack w r).
Proof.
  cbv zeta.
  rewrite (foldl_ext_in _
             (fun w x => update_stack r
                (fun i => with_dynamicProperties
                            (<[fst x := snd x]> (dynamicProperties i)) i) w))
    by (by intros ? [? ?]).
  destruct (foldl_update_stack r
              (fun (x : string * string) i =>
                 with_dynamicProperties (<[fst x := snd x]> (dynamicProperties i)) i)
              l w) as (H1 & H2 & H3 & H4 & H5).
  repeat (split; [done|]). rewrite H5. apply foldl_with_dynamicProperties.
Qed.

Lemma foldl_nbt_add (r : ref) (l : list (string * string)) (w : World) :
  let w' := foldl (fun w '(name, value) => nbt_add r name value w) w l in
  containers w' = containers w /\
  traitObjs w' = traitObjs w /\
  events w' = events w /\
  (forall r0, r0 ≠ r -> stack w' r0 = stack w r0) /\
  stack w' r =
    with_nbt (foldl (fun m kv => <[fst kv := snd kv]> m) (nbt (stack w r)) l)
             (stack w r).
Proof.
  cbv zeta.
  rewrite (foldl_ext_in _
             (fun w x => update_stack r
                (fun i => with_nbt (<[fst x := snd x]> (nbt i)) i) w))
    by (by intros ? [? ?]).
  destruct (foldl_update_stack r
              (fun (x : string * string) i =>
                 with_nbt (<[fst x := snd x]> (nbt i)) i)
              l w) as (H1 & H2 & H3 & H4 & H5).
  repeat (split; [done|]). rewrite H5. apply foldl_with_nbt.
Qed.

Lemma items_clearSlot c k w : items (clearSlot c k w) = items w.
Proof. by rewrite clearSlot_unfold. Qed.

Lemma traitObjs_clearSlot c k w : traitObjs (clearSlot c k w) = traitObjs w.
Proof. by rewrite clearSlot_unfold. Qed.

Lemma getItem_containers c k w w' :
  containers w' = containers w -> getItem c k w' = getItem c k w.
Proof. intros H. unfold getItem, size, store, cont. by rewrite H. Qed.

Lemma getItem_clearSlot_js_rem c slot w :
  getItem c slot (clearSlot c (js_rem slot (size w c)) w) = None.
Proof.
  unfold getItem. rewrite size_clearSlot, store_clearSlot.
  rewrite (decide_True (P := c = c)) by done.
  rewrite js_rem_idem, storage_get_set. by rewrite decide_True.
Qed.

Lemma takeItem_whole c slot amount w item :
  getItem c slot w = Some item -> amount = getStackSize w item ->
  takeItem c slot amount w = (Some item, clearSlot c (js_rem slot (size w c)) w).
Proof.
  intros Hg ->. unfold takeItem. by rewrite getItem_js_rem, Hg, Z.eqb_refl.
Qed.

Lemma takeItem_split c slot amount w item :
  getItem c slot w = Some item ->
  amount ≠ getStackSize w item ->
  Forall (fun t => t ∈ dom (traitObjs w)) (traits (stack w item)) ->
  let original := getStackSize w item in
  let taken := Z.min amount original in
  exists r w', takeItem c slot amount w = (Some r, w') /\
    (r ∉ dom (items w)) /\ r ≠ item /\
    getItem c slot w' = (if original - taken =? 0 then None else Some item) /\
    stack w' item = with_stackSize (original - taken) (stack w item) /\
    type (stack w' r) = type (stack w item) /\
    stackSize (stack w' r) = taken /\
    dynamicProperties (stack w' r) = dynamicProperties (stack w item) /\
    nbt (stack w' r) = nbt (stack w item) /\
    Forall2 (fun t t' =>
               (t' ∉ dom (traitObjs w)) /\
               traitObjs w' !!! t' =
                 mkTrait (trait_identifier (traitObjs w !!! t)) r
                         (trait_state (traitObjs w !!! t)))
            (traits (stack w item)) (traits (stack w' r)) /\
    (forall t, t ∈ dom (traitObjs w) -> traitObjs w' !! t = traitObjs w !! t).
Proof.
  intros Hg Hne Htr original taken.
  pose (k := js_rem slot (size w c)).
  pose (w1 := decrementStack item taken w).
  pose (w2 := if getStackSize w1 item =? 0 then clearSlot c k w1 else w1).
  pose (r := fresh (dom (items w2))).
  pose (w3 := set_items
                (fun m => <[r := mkItemStack (type (stack w2 item)) taken None ∅ [] ∅]> m) w2).
  pose (w4 := foldl (fun w '(key, value) => setDynamicProperty r key value w)
                    w3 (map_to_list (dynamicProperties (stack w3 item)))).
  pose (w5 := foldl (fun w trait =>
                       let '(cloned, w) := clone_trait trait r w in
                       addTrait r cloned w) w4 (traits (stack w4 item))).
  pose (w6 := updateSlot c k w5).
  pose (w7 := foldl (fun w '(name, value) => nbt_add r name value w)
                    w6 (map_to_list (nbt (stack w6 item)))).
  assert (Heq : takeItem c slot amount w = (Some r, w7)).
  { unfold takeItem. rewrite getItem_js_rem, Hg.
    destruct (amount =? getStackSize w item) eqn:E; [lia|]. reflexivity. }
  exists r, w7. split; [exact Heq|].
  (* the original stack after the decrement *)
  assert (S1 : stack w1 item = with_stackSize (original - taken) (stack w item)).
  { unfold w1, decrementStack, setStackSize. by rewrite stack_update_stack_eq. }
  assert (D1 : dom (items w1) = {[item]} ∪ dom (items w)).
  { unfold w1, decrementStack, setStackSize. apply dom_items_update_stack. }
  assert (S2 : forall r0, stack w2 r0 = stack w1 r0).
  { intros r0. unfold w2. case (_ =? 0); [apply stack_clearSlot|done]. }
  assert (D2 : items w2 = items w1).
  { unfold w2. case (_ =? 0); [apply items_clearSlot|done]. }
  assert (T2 : traitObjs w2 = traitObjs w).
  { unfold w2. case (_ =? 0); [rewrite traitObjs_clearSlot|]; done. }
  assert (G2 : getItem c slot w2 = (if original - taken =? 0 then None else Some item)).
  { unfold w2. replace (getStackSize w1 item) with (original - taken)
      by (unfold getStackSize; by rewrite S1).
    case (original - taken =? 0).
    - exact (getItem_clearSlot_js_rem c slot w1).
    - exact Hg. }
  (* the new stack *)
  assert (Hr : r ∉ dom (items w2)) by apply is_fresh.
  rewrite D2, D1 in Hr.
  assert (Hri : r ≠ item).
  { intros ->. apply Hr, elem_of_union. left. by apply elem_of_singleton. }
  assert (Hrw : r ∉ dom (items w)).
  { intros Hin. apply Hr, elem_of_union. by right. }
  assert (S3 : stack w3 r = mkItemStack (type (stack w item)) taken None ∅ [] ∅).
  { unfold w3, stack, set_items; cbn [items]. rewrite lookup_total_insert_eq.
    f_equal. fold (stack w2 item). by rewrite S2, S1. }
  assert (S3' : forall r0, r0 ≠ r -> stack w3 r0 = stack w2 r0).
  { intros r0 Hr0. unfold w3, stack, set_items; cbn [items].
    by rewrite lookup_total_insert_ne. }
  assert (I3 : stack w3 item = with_stackSize (original - taken) (stack w item)).
  { rewrite S3' by done. by rewrite S2. }
  (* the dynamic properties *)
  destruct (foldl_setDynamicProperty r
              (map_to_list (dynamicProperties (stack w3 item))) w3)
    as (C4 & T4 & _ & S4' & S4).
  fold w4 in C4, T4, S4', S4.
  rewrite S3 in S4. cbn [type stackSize container dynamicProperties traits nbt with_stackSize with_traits with_nbt with_dynamicProperties with_container] in S4. rewrite I3 in S4. cbn [type stackSize container dynamicProperties traits nbt with_stackSize with_traits with_nbt with_dynamicProperties with_container] in S4.
  rewrite foldl_insert_map_to_list in S4.
  (* the traits *)
  assert (I4 : stack w4 item = with_stackSize (original - taken) (stack w item)).
  { rewrite S4' by done. exact I3. }
  assert (Htr4 : Forall (fun t => t ∈ dom (traitObjs w4)) (traits (stack w4 item))).
  { rewrite I4, T4. cbn [type stackSize container dynamicProperties traits nbt with_stackSize with_traits with_nbt with_dynamicProperties with_container].
    change (traitObjs w3) with (traitObjs w2). by rewrite T2. }
  destruct (foldl_clone r (traits (stack w4 item)) w4 Htr4)
    as (C5 & _ & S5' & T5 & ts & S5 & F5).
  fold w5 in C5, S5', T5, S5, F5.
  rewrite I4 in F5. cbn [type stackSize container dynamicProperties traits nbt with_stackSize with_traits with_nbt with_dynamicProperties with_container] in F5.
  rewrite S4 in S5. cbn [type stackSize container dynamicProperties traits nbt with_stackSize with_traits with_nbt with_dynamicProperties with_container] in S5.
  (* the tags *)
  assert (I6 : stack w6 item = with_stackSize (original - taken) (stack w item)).
  { unfold w6. rewrite stack_updateSlot, S5' by done. exact I4. }
  destruct (foldl_nbt_add r (map_to_list (nbt (stack w6 item))) w6)
    as (C7 & T7 & _ & S7' & S7).
  fold w7 in C7, T7, S7', S7.
  assert (S6 : stack w6 r = stack w5 r) by done.
  rewrite S6, S5, I6 in S7. cbn [type stackSize container dynamicProperties traits nbt with_stackSize with_traits with_nbt with_dynamicProperties with_container] in S7.
  rewrite foldl_insert_map_to_list in S7.
  assert (TO : traitObjs w4 = traitObjs w).
  { rewrite T4. change (traitObjs w3) with (traitObjs w2). exact T2. }
  split; [done|]. split; [done|]. split.
  { rewrite <- G2. apply getItem_containers.
    rewrite C7. unfold w6. change (containers (updateSlot c k w5)) with (containers w5).
    by rewrite C5, C4. }
  split; [by rewrite S7'|].
  rewrite S7. cbn [type stackSize container dynamicProperties traits nbt with_stackSize with_traits with_nbt with_dynamicProperties with_container]. repeat (split; [done|]).
  split.
  - eapply Forall2_impl; [exact F5|]. intros t t' [H1 H2]. cbv beta in *.
    rewrite TO in H1, H2. split; [done|].
    rewrite T7. exact H2.
  - intros t Ht. rewrite T7. change (traitObjs w6) with (traitObjs w5).
    rewrite T5 by (by rewrite TO). by rewrite TO.
Qed.

(** [takeItem] returns nothing exactly when the slot it resolves is
    empty.  Otherwise it returns a stack of size [min amount original], and
    the slot keeps the stored stack with [original - min amount original], or
    is cleared when that is zero.  When [amount] is the stored quantity, the
    stored stack itself is returned and no stack is modified.  Otherwise the
    returned stack is a new object of the same type that has every dynamic
    property and every tag of the original, and for each trait of the
    original a clone that is a new trait object attached to the new stack;
    the original keeps its own properties, tags and traits. *)
Theorem takeItem_spec (c : cref) (slot : index) (amount : Z) (w : World) :
  let out := fst (takeItem c slot amount w) in
  let w' := snd (takeItem c slot amount w) in
  (out = None <-> getItem c slot w = None) /\
  forall item, getItem c slot w = Some item ->
    Forall (fun t => t ∈ dom (traitObjs w)) (traits (stack w item)) ->
    let original := getStackSize w item in
    let taken := Z.min amount original in
    exists r, out = Some r /\
      getStackSize w' r = taken /\
      getItem c slot w' = (if original - taken =? 0 then None else Some item) /\
      (original - taken ≠ 0 -> getStackSize w' item = original - taken) /\
      (amount = original -> r = item /\ forall r0, stack w' r0 = stack w r0) /\
      (amount ≠ original ->
         (r ∉ dom (items w)) /\ r ≠ item /\
         type (stack w' r) = type (stack w item) /\
         dynamicProperties (stack w' r) = dynamicProperties (stack w item) /\
         nbt (stack w' r) = nbt (stack w item) /\
         Forall2 (fun t t' =>
                    (t' ∉ dom (traitObjs w)) /\
                    traitObjs w' !!! t' =
                      mkTrait (trait_identifier (traitObjs w !!! t)) r
                              (trait_state (traitObjs w !!! t)))
                 (traits (stack w item)) (traits (stack w' r)) /\
         stack w' item = with_stackSize (original - taken) (stack w item) /\
         (forall t, t ∈ dom (traitObjs w) -> traitObjs w' !! t = traitObjs w !! t)).
Proof.
  intros out w'. split.
  - subst out. unfold takeItem. rewrite getItem_js_rem.
    destruct (getItem c slot w) as [item|]; [|done].
    destruct (amount =? getStackSize w item); simpl; split; discriminate.
  - intros item Hg Htr original taken.
    destruct (decide (amount = original)) as [E|E].
    + pose proof (takeItem_whole c slot amount w item Hg E) as Hw.
      subst out w'. rewrite Hw. simpl. exists item.
      assert (Ht : taken = original) by (unfold taken; lia).
      rewrite Ht, Z.sub_diag. simpl.
      split; [done|]. split.
      { unfold getStackSize. by rewrite stack_clearSlot. }
      split; [apply getItem_clearSlot_js_rem|].
      split; [done|]. split; [|done].
      intros _. split; [done|]. intros r0. apply stack_clearSlot.
    + destruct (takeItem_split c slot amount w item Hg E Htr)
        as (r & w1 & Hw & H1 & H2 & H3 & H4 & H5 & H6 & H7 & H8 & H9 & H10).
      subst out w'. rewrite Hw. simpl. exists r.
      split; [done|]. split; [exact H6|]. split; [exact H3|].
      split; [intros _; unfold getStackSize; by rewrite H4|].
      split; [done|]. intros _. done.
Qed.

End Take.

Lemma takeItem_spec_witness :
  let out := fst (takeItem 0%nat (Int 0) 4 loaded_chest) in
  let w' := snd (takeItem 0%nat (Int 0) 4 loaded_chest) in
  exists r, out = Some r /\ getStackSize w' r = 4 /\
    getItem 0%nat (Int 0) w' = Some 0%nat /\ getStackSize w' 0%nat = 6 /\
    dynamicProperties (stack w' r) = {[ "lore" := "old" ]}.
Proof.
  intros out w'.
  destruct (proj2 (takeItem_spec 0%nat (Int 0) 4 loaded_chest) 0%nat)
    as (r & H1 & H2 & H3 & H4 & _ & H6).
  - reflexivity.
  - constructor; [|constructor]. apply elem_of_dom. eexists. reflexivity.
  - exists r. split; [exact H1|]. split; [exact H2|]. split; [exact H3|].
    split; [apply H4; vm_compute; discriminate|].
    destruct H6 as (_ & _ & _ & Hd & _); [vm_compute; discriminate|exact Hd].
Defined.

(** * Adding a stack *)

Section Add.

Variable equals : ItemStack -> ItemStack -> bool.
Variable Air : string.

Lemma accepts_mergeable w item slot :
  accepts equals w item slot = true <-> mergeable equals w item slot.
Proof.
  unfold accepts, mergeable. destruct slot as [r|].
  - rewrite andb_true_iff, Z.ltb_lt. split.
    + intros [? ?]. exists r. done.
    + intros (r' & [= <-] & ? & ?). done.
  - split; [done|]. by intros (r & ? & _).
Qed.

Lemma list_find_lowest {A} (P : A -> Prop) `{forall x, Decision (P x)}
    (l : list A) (i : nat) (x : A) :
  list_find P l = Some (i, x) -> lowest P l i /\ l !! i = Some x /\ P x.
Proof.
  intros Hf. apply list_find_Some in Hf as (Hi & HP & Hlow).
  split; [|done]. split; [by exists x|].
  intros j y Hj Hy. destruct (decide (i <= j)%nat) as [|Hn]; [done|].
  exfalso. apply (Hlow j y Hj); [lia|done].
Qed.

Lemma lowest_ext {A} (P Q : A -> Prop) (l : list A) (i : nat) :
  (forall x, P x <-> Q x) -> lowest P l i -> lowest Q l i.
Proof.
  intros HPQ [(x & Hx & HP) Hlow]. split.
  - exists x. split; [done|]. by apply HPQ.
  - intros j y Hj Hy. apply (Hlow j y Hj). by apply HPQ.
Qed.

Lemma findIndex_accepting_occupied w item s i :
  findIndex_accepting equals w item s ≠ Some (i, None).
Proof.
  unfold findIndex_accepting. intros Hf.
  apply list_find_Some in Hf as (_ & Hacc & _). done.
Qed.

(** One turn of the loop, in each of its three cases. *)

Lemma addItem_loop_done n c item w :
  getStackSize w item <= 0 -> addItem_loop equals Air (S n) c item w = Some w.
Proof.
  intros H. simpl. destruct (getStackSize w item >? 0) eqn:E; [lia|done].
Qed.

Lemma addItem_loop_merge n c item w i r :
  0 < getStackSize w item ->
  findIndex_accepting equals w item (store w c) = Some (i, Some r) ->
  addItem_loop equals Air (S n) c item w =
  addItem_loop equals Air n c item
    (decrementStack item
       (Z.min (maxStackSize w r - getStackSize w r) (getStackSize w item))
       (incrementStack r
          (Z.min (maxStackSize w r - getStackSize w r) (getStackSize w item)) w)).
Proof.
  intros Hpos Hf. cbn [addItem_loop].
  destruct (getStackSize w item >? 0) eqn:E; [|lia]. by rewrite Hf.
Qed.

Lemma addItem_loop_place n c item w e :
  0 < getStackSize w item ->
  findIndex_accepting equals w item (store w c) = None ->
  indexOf_null (store w c) = Some e ->
  addItem_loop equals Air (S n) c item w =
  addItem_loop equals Air n c item
    (decrementStack item (Z.min (maxStackSize w item) (getStackSize w item))
       (setItem Air c (Int (Z.of_nat e))
          (fst (new_ItemStack (type (stack w item))
                  (Z.min (maxStackSize w item) (getStackSize w item)) w))
          (snd (new_ItemStack (type (stack w item))
                  (Z.min (maxStackSize w item) (getStackSize w item)) w)))).
Proof.
  intros Hpos Hf He. cbn [addItem_loop].
  destruct (getStackSize w item >? 0) eqn:E; [|lia]. by rewrite Hf, He.
Qed.

Lemma addItem_loop_full n c item w :
  0 < getStackSize w item ->
  findIndex_accepting equals w item (store w c) = None ->
  indexOf_null (store w c) = None ->
  addItem_loop equals Air (S n) c item w = Some w.
Proof.
  intros Hpos Hf He. cbn [addItem_loop].
  destruct (getStackSize w item >? 0) eqn:E; [|lia]. by rewrite Hf, He.
Qed.

(** Sums of stack sizes over a list of stacks. *)

Lemma sum_sizes_frame w w' (l : list ref) :
  (forall r, r ∈ l -> getStackSize w' r = getStackSize w r) ->
  foldr (fun r acc => getStackSize w' r + acc) 0 l =
  foldr (fun r acc => getStackSize w r + acc) 0 l.
Proof.
  induction l as [|a l IH]; intros H; simpl; [done|].
  rewrite H by apply list_elem_of_here. rewrite IH; [done|].
  intros r Hr. apply H. by apply list_elem_of_further.
Qed.

Lemma sum_sizes_bump w w' (l : list ref) r m :
  NoDup l -> r ∈ l ->
  getStackSize w' r = getStackSize w r + m ->
  (forall r0, r0 ∈ l -> r0 ≠ r -> getStackSize w' r0 = getStackSize w r0) ->
  foldr (fun r acc => getStackSize w' r + acc) 0 l =
  foldr (fun r acc => getStackSize w r + acc) 0 l + m.
Proof.
  induction l as [|a l IH]; intros Hnd Hin Hr Hothers; simpl.
  - by apply elem_of_nil in Hin.
  - apply NoDup_cons in Hnd as [Ha Hnd].
    destruct (decide (a = r)) as [->|Hne].
    + rewrite Hr. rewrite (sum_sizes_frame w w' l); [lia|].
      intros r0 Hr0. apply Hothers; [by apply list_elem_of_further|].
      intros ->. done.
    + apply elem_of_cons in Hin as [->|Hin]; [done|].
      rewrite (Hothers a) by (done || apply list_elem_of_here).
      rewrite IH; [lia|done..|].
      intros r0 Hr0. apply Hothers. by apply list_elem_of_further.
Qed.

Lemma sum_sizes_app w (l k : list ref) :
  foldr (fun r acc => getStackSize w r + acc) 0 (l ++ k) =
  foldr (fun r acc => getStackSize w r + acc) 0 l +
  foldr (fun r acc => getStackSize w r + acc) 0 k.
Proof. induction l as [|a l IH]; simpl; [done|]. rewrite IH. lia. Qed.

Lemma elem_of_stored (l : list (option ref)) r :
  r ∈ omap id l <-> Some r ∈ l.
Proof.
  rewrite list_elem_of_omap. split.
  - intros (y & Hy & Hid). unfold id in Hid. by subst.
  - intros H. by exists (Some r).
Qed.

(** Filling the empty slot [e] adds one stack to those stored. *)
Lemma stored_insert (l : list (option ref)) e r' :
  l !! e = Some None ->
  exists A B, omap id l = A ++ B /\ omap id (<[e := Some r']> l) = A ++ r' :: B.
Proof.
  intros He.
  assert (Hlen : (e < length l)%nat) by (by eapply lookup_lt_Some).
  exists (omap id (take e l)), (omap id (drop (S e) l)). split.
  - rewrite <- (take_drop_middle l e None He) at 1.
    by rewrite omap_app.
  - rewrite insert_take_drop by done. by rewrite omap_app.
Qed.

(** The merging turn. *)
Lemma merge_step c item w i r :
  add_ready Air c item w ->
  0 < getStackSize w item ->
  findIndex_accepting equals w item (store w c) = Some (i, Some r) ->
  let m := Z.min (maxStackSize w r - getStackSize w r) (getStackSize w item) in
  let w1 := decrementStack item m (incrementStack r m w) in
  1 <= m <= getStackSize w item /\
  getStackSize w1 item = getStackSize w item - m /\
  add_step equals c item w w1 /\
  add_ready Air c item w1 /\
  (NoDup (omap id (elems (store w c))) ->
   total w1 c = total w c + m /\ NoDup (omap id (elems (store w1 c)))).
Proof.
  intros (R1 & R2 & R3 & R4 & R5 & R6) Hpos Hf m w1.
  unfold findIndex_accepting in Hf.
  apply list_find_lowest in Hf as (Hlow & Hi & Hacc).
  assert (Hmer := proj1 (accepts_mergeable w item (Some r)) Hacc).
  destruct Hmer as (r_ & [= <-] & Hroom & Heq).
  assert (Hin : Some r ∈ elems (store w c)) by (apply list_elem_of_lookup; eauto).
  assert (Hne : r ≠ item) by (intros ->; done).
  assert (Hm : 1 <= m <= getStackSize w item) by (unfold m; lia).
  assert (Sr : stack w1 r = with_stackSize (getStackSize w r + m) (stack w r)).
  { unfold w1, decrementStack, incrementStack, setStackSize.
    rewrite stack_update_stack_ne by done. by rewrite stack_update_stack_eq. }
  assert (Si : stack w1 item = with_stackSize (getStackSize w item - m) (stack w item)).
  { unfold w1, decrementStack, incrementStack, setStackSize.
    rewrite stack_update_stack_eq. unfold getStackSize.
    by rewrite !stack_update_stack_ne by done. }
  assert (So : forall r0, r0 ≠ r -> r0 ≠ item -> stack w1 r0 = stack w r0).
  { intros r0 H1 H2. unfold w1, decrementStack, incrementStack, setStackSize.
    by rewrite !stack_update_stack_ne by done. }
  assert (Dom : forall r0, r0 ∈ dom (items w) -> r0 ∈ dom (items w1)).
  { intros r0 Hr0. unfold w1, decrementStack, incrementStack, setStackSize.
    rewrite !dom_items_update_stack. apply elem_of_union. right.
    apply elem_of_union. by right. }
  split; [done|]. split; [by unfold getStackSize at 1; rewrite Si|].
  split; [|split].
  - apply (step_merge equals c item w w1 i r m); try done.
    eapply lowest_ext; [|exact Hlow]. intros x. apply accepts_mergeable.
  - unfold add_ready, isStackable, maxStackSize. rewrite Si. simpl.
    repeat split; try done; auto.
  - intros Hnd. split; [|done].
    unfold total. change (store w1 c) with (store w c).
    apply (sum_sizes_bump w w1 _ r m); [done|by apply elem_of_stored| |].
    + unfold getStackSize at 1. by rewrite Sr.
    + intros r0 Hr0 Hr0r. unfold getStackSize. rewrite So; [done..|].
      intros ->. by apply elem_of_stored in Hr0.
Qed.

Lemma indexOf_null_lowest (s : Storage) (e : nat) :
  indexOf_null s = Some e ->
  lowest (fun slot : option ref => slot = None) (elems s) e /\
  elems s !! e = Some None.
Proof.
  unfold indexOf_null. intros H.
  destruct (list_find _ (elems s)) as [[e' x]|] eqn:Hf; [|done].
  injection H as ->.
  apply list_find_lowest in Hf as (Hlow & He & ->). done.
Qed.

Lemma elems_storage_set_element (s : Storage) (e : nat) v :
  (e < length (elems s))%nat ->
  elems (storage_set s (js_rem (Int (Z.of_nat e)) (Z.of_nat (length (elems s)))) v) =
  <[e := v]> (elems s).
Proof.
  intros He.
  destruct (js_rem_nonneg (Z.of_nat e) (Z.of_nat (length (elems s)))) as [E _]; [lia..|].
  rewrite E, Z.mod_small by lia. simpl.
  unfold is_element.
  destruct (0 <=? Z.of_nat e) eqn:E1; [|lia].
  destruct (Z.of_nat e <? Z.of_nat (length (elems s))) eqn:E2; [|lia].
  simpl. by rewrite Nat2Z.id.
Qed.

(** The placing turn. *)
Lemma place_step c item w e :
  add_ready Air c item w ->
  0 < getStackSize w item ->
  findIndex_accepting equals w item (store w c) = None ->
  indexOf_null (store w c) = Some e ->
  let m := Z.min (maxStackSize w item) (getStackSize w item) in
  let r' := fst (new_ItemStack (type (stack w item)) m w) in
  let w0 := snd (new_ItemStack (type (stack w item)) m w) in
  let w2 := decrementStack item m (setItem Air c (Int (Z.of_nat e)) r' w0) in
  1 <= m <= getStackSize w item /\
  getStackSize w2 item = getStackSize w item - m /\
  add_step equals c item w w2 /\
  add_ready Air c item w2 /\
  (NoDup (omap id (elems (store w c))) ->
   total w2 c = total w c + m /\ NoDup (omap id (elems (store w2 c)))).
Proof.
  intros (R1 & R2 & R3 & R4 & R5 & R6) Hpos Hf He m r' w0 w2.
  apply indexOf_null_lowest in He as [Hlow He].
  assert (Hlen : (e < length (elems (store w c)))%nat) by (by eapply lookup_lt_Some).
  unfold findIndex_accepting in Hf. apply list_find_None in Hf.
  assert (Hm : 1 <= m <= getStackSize w item) by (unfold m; lia).
  assert (Hfresh : r' ∉ dom (items w)) by apply is_fresh.
  assert (Hne : r' ≠ item) by (intros E; rewrite E in Hfresh; done).
  assert (S0 : stack w0 r' = mkItemStack (type (stack w item)) m None ∅ [] ∅).
  { unfold w0, stack at 1; simpl. apply lookup_total_insert_eq. }
  assert (S0' : forall r0, r0 ≠ r' -> stack w0 r0 = stack w r0).
  { intros r0 Hr0. unfold w0, stack at 1; simpl. by apply lookup_total_insert_ne. }
  assert (Hst : storable Air w0 r' = true).
  { unfold storable, getStackSize. rewrite S0. simpl.
    destruct (m =? 0) eqn:E; [lia|]. simpl.
    by rewrite bool_decide_eq_false_2. }
  set (w1 := setItem Air c (Int (Z.of_nat e)) r' w0) in *.
  assert (E1 : elems (store w1 c) = <[e := Some r']> (elems (store w c))).
  { unfold w1. rewrite store_setItem, decide_True by done. rewrite Hst.
    change (store w0 c) with (store w c). unfold size.
    change (store w0 c) with (store w c).
    by apply elems_storage_set_element. }
  assert (S1 : forall r0, r0 ≠ r' -> stack w1 r0 = stack w r0).
  { intros r0 Hr0. unfold w1. rewrite stack_setItem, decide_False by done.
    by apply S0'. }
  assert (S1' : stack w1 r' = with_container (Some c) (stack w0 r')).
  { unfold w1. by rewrite stack_setItem, decide_True. }
  assert (Si : stack w2 item = with_stackSize (getStackSize w item - m) (stack w item)).
  { unfold w2, decrementStack, setStackSize. rewrite stack_update_stack_eq.
    unfold getStackSize. by rewrite S1. }
  assert (So : forall r0, r0 ≠ item -> stack w2 r0 = stack w1 r0).
  { intros r0 Hr0. unfold w2, decrementStack, setStackSize.
    by rewrite stack_update_stack_ne. }
  assert (Dom : forall r0, r0 ∈ dom (items w) -> r0 ∈ dom (items w2)).
  { intros r0 Hr0. unfold w2, decrementStack, setStackSize.
    rewrite dom_items_update_stack. apply elem_of_union. right.
    unfold w1, setItem.
    change (items (updateSlot ?c ?k ?w)) with (items w).
    rewrite dom_items_update_stack. apply elem_of_union. right.
    destruct (_ || _); rewrite ?items_clearSlot; simpl;
      rewrite dom_insert_L; apply elem_of_union; by right. }
  assert (Dom' : r' ∈ dom (items w2)).
  { unfold w2, decrementStack, setStackSize.
    rewrite dom_items_update_stack. apply elem_of_union. right.
    unfold w1, setItem.
    change (items (updateSlot ?c ?k ?w)) with (items w).
    rewrite dom_items_update_stack. apply elem_of_union. left.
    by apply elem_of_singleton. }
  assert (Hstored : forall r0, Some r0 ∈ elems (store w c) -> r0 ≠ r' /\ r0 ≠ item).
  { intros r0 Hr0. split; intros ->; [by apply R6 in Hr0|done]. }
  split; [done|]. split; [by unfold getStackSize at 1; rewrite Si|].
  split; [|split].
  - apply (step_place equals c item w w2 e r' m); try done.
    + eapply Forall_impl; [exact Hf|]. intros x Hx Hmer. simpl in Hx.
      by apply accepts_mergeable in Hmer.
    + rewrite So by done. rewrite S1', S0. done.
    + unfold getStackSize. rewrite So by done. rewrite S1', S0. done.
    + intros r0 H1 H2. rewrite So by done. by apply S1.
  - unfold add_ready, isStackable, maxStackSize. rewrite Si. simpl.
    change (store w2 c) with (store w1 c). rewrite E1.
    repeat split; try done; auto.
    + intros Hin. apply list_elem_of_lookup in Hin as [j Hj].
      apply list_lookup_insert_Some in Hj as [(_ & [= ->] & _)|[_ Hj]]; [done|].
      apply R5, list_elem_of_lookup. eauto.
    + intros r0 Hin. apply list_elem_of_lookup in Hin as [j Hj].
      apply list_lookup_insert_Some in Hj as [(_ & [= ->] & _)|[_ Hj]]; [done|].
      apply Dom, R6, list_elem_of_lookup. eauto.
  - intros Hnd. unfold total. change (store w2 c) with (store w1 c). rewrite E1.
    destruct (stored_insert (elems (store w c)) e r' He) as (A & B & HAB & HAB').
    rewrite HAB', HAB in *.
    assert (HinAB : forall r0, r0 ∈ A ++ B -> r0 ≠ r' /\ r0 ≠ item).
    { intros r0 Hr0. apply Hstored, elem_of_stored. by rewrite HAB. }
    assert (Hsame : forall r0, r0 ∈ A ++ B -> getStackSize w2 r0 = getStackSize w r0).
    { intros r0 Hr0. destruct (HinAB r0 Hr0). unfold getStackSize.
      rewrite So by done. by rewrite S1. }
    split.
    + rewrite !sum_sizes_app. simpl.
      rewrite (sum_sizes_frame w w2 A), (sum_sizes_frame w w2 B).
      * replace (getStackSize w2 r') with m; [lia|].
        unfold getStackSize. rewrite So by done. by rewrite S1', S0.
      * intros r0 Hr0. apply Hsame, elem_of_app. by right.
      * intros r0 Hr0. apply Hsame, elem_of_app. by left.
    + apply NoDup_app in Hnd as (HA & HAB2 & HB).
      apply NoDup_app. split; [done|]. split.
      * intros x Hx Hx'. apply elem_of_cons in Hx' as [->|Hx'].
        -- destruct (HinAB r'); [apply elem_of_app; by left|done].
        -- by apply (HAB2 x).
      * apply NoDup_cons. split; [|done]. intros Hin.
        destruct (HinAB r'); [apply elem_of_app; by right|done].
Qed.

Lemma addItem_loop_fuel c item n n' w w' :
  addItem_loop equals Air n c item w = Some w' -> (n <= n')%nat ->
  addItem_loop equals Air n' c item w = Some w'.
Proof.
  revert n' w. induction n as [|n IH]; intros n' w H Hle; [done|].
  destruct n' as [|n']; [lia|].
  cbn [addItem_loop] in *.
  destruct (getStackSize w item >? 0); [|done].
  destruct (findIndex_accepting equals w item (store w c)) as [[i [r|]]|].
  - apply IH; [done|lia].
  - destruct (indexOf_null (store w c)); [|done].
    destruct (new_ItemStack _ _ w). apply IH; [done|lia].
  - destruct (indexOf_null (store w c)); [|done].
    destruct (new_ItemStack _ _ w). apply IH; [done|lia].
Qed.

(** The loop ends within as many turns as the stack has units, and what it
    does is a run of the specified algorithm; when no stack sits in two
    slots, the quantity in the slots and in the caller's stack is conserved. *)
Lemma addItem_loop_run c item n w :
  add_ready Air c item w ->
  getStackSize w item <= Z.of_nat n ->
  exists w', addItem_loop equals Air (S n) c item w = Some w' /\
    add_run equals c item w w' /\
    (NoDup (omap id (elems (store w c))) ->
     total w' c + getStackSize w' item = total w c + getStackSize w item).
Proof.
  revert w. induction n as [|n IH]; intros w Hready Hsize.
  - exists w. split; [by apply addItem_loop_done; lia|].
    split; [by apply run_absorbed; lia|done].
  - destruct (decide (getStackSize w item <= 0)) as [Hz|Hpos].
    { exists w. split; [by apply addItem_loop_done|].
      split; [by apply run_absorbed|done]. }
    assert (0 < getStackSize w item) as Hp by lia. clear Hpos.
    destruct (findIndex_accepting equals w item (store w c)) as [[i [r|]]|] eqn:Hf.
    + destruct (merge_step c item w i r Hready Hp Hf) as (Hm & Hs & Hstep & Hr1 & Hc).
      rewrite (addItem_loop_merge _ c item w i r Hp Hf).
      destruct (IH _ Hr1 ltac:(lia)) as (w' & Hl & Hrun & Hc').
      exists w'. split; [done|]. split; [by eapply run_step|].
      intros Hnd. destruct (Hc Hnd) as [Ht Hnd1]. rewrite (Hc' Hnd1). lia.
    + by apply findIndex_accepting_occupied in Hf.
    + destruct (indexOf_null (store w c)) as [e|] eqn:He.
      * destruct (place_step c item w e Hready Hp Hf He) as (Hm & Hs & Hstep & Hr1 & Hc).
        rewrite (addItem_loop_place _ c item w e Hp Hf He).
        destruct (IH _ Hr1 ltac:(lia)) as (w' & Hl & Hrun & Hc').
        exists w'. split; [done|]. split; [by eapply run_step|].
        intros Hnd. destruct (Hc Hnd) as [Ht Hnd1]. rewrite (Hc' Hnd1). lia.
      * exists w. split; [by apply addItem_loop_full|]. split; [|done].
        apply run_full; [done|].
        unfold findIndex_accepting in Hf. apply list_find_None in Hf.
        unfold indexOf_null in He.
        destruct (list_find _ (elems (store w c))) eqn:Hn; [done|].
        apply list_find_None in Hn.
        apply Forall_and. split; [|done].
        eapply Forall_impl; [exact Hf|]. intros x Hx Hmer. simpl in Hx.
        by apply accepts_mergeable in Hmer.
Qed.

(** For a stackable stack that [addItem] is ready for, the call returns
    once the fuel exceeds the quantity handed in, and what it has done is a
    run of the specified loop: each turn merges [min(space, remaining)] units
    into the lowest slot holding a compatible stack that is not full, or,
    when there is none, places a new stack object of [min(max, remaining)]
    units in the lowest empty slot; it stops when neither exists or nothing
    remains.  The result is [true] exactly when nothing remains. *)
Theorem addItem_stackable (c : cref) (item : ref) (w : World) :
  add_ready Air c item w ->
  exists b w',
    (forall fuel, (Z.to_nat (getStackSize w item) < fuel)%nat ->
       addItem equals Air fuel c item w = Some (b, w')) /\
    add_run equals c item w w' /\
    (b = true <-> getStackSize w' item = 0).
Proof.
  intros Hready.
  destruct (addItem_loop_run c item (Z.to_nat (getStackSize w item)) w Hready
              ltac:(lia)) as (w' & Hl & Hrun & _).
  exists (getStackSize w' item =? 0), w'. split; [|split; [done|]].
  - intros fuel Hfuel. unfold addItem.
    destruct Hready as (-> & _). simpl.
    by rewrite (addItem_loop_fuel c item _ fuel w w' Hl) by lia.
  - apply Z.eqb_eq.
Qed.

(** On the stackable path the quantity is conserved: what the slots gain is
    what the caller's stack loses. *)
Lemma addItem_stackable_conserves (c : cref) (item : ref) (w : World) :
  add_ready Air c item w ->
  NoDup (omap id (elems (store w c))) ->
  exists b w',
    (forall fuel, (Z.to_nat (getStackSize w item) < fuel)%nat ->
       addItem equals Air fuel c item w = Some (b, w')) /\
    getStackSize w item = (total w' c - total w c) + getStackSize w' item.
Proof.
  intros Hready Hnd.
  destruct (addItem_loop_run c item (Z.to_nat (getStackSize w item)) w Hready
              ltac:(lia)) as (w' & Hl & _ & Hc).
  exists (getStackSize w' item =? 0), w'. split.
  - intros fuel Hfuel. unfold addItem.
    destruct Hready as (-> & _). simpl.
    by rewrite (addItem_loop_fuel c item _ fuel w w' Hl) by lia.
  - specialize (Hc Hnd). lia.
Qed.

(** With no empty slot a stack that does not stack is refused and nothing
    changes. *)
Lemma addItem_unstackable_full (fuel : nat) (c : cref) (item : ref) (w : World) :
  isStackable w item = false ->
  indexOf_null (store w c) = None ->
  addItem equals Air fuel c item w = Some (false, w).
Proof. intros H1 H2. unfold addItem. by rewrite H1, H2. Qed.

End Add.

Lemma forty_and_thirty_ready : add_ready air 0%nat 1%nat forty_and_thirty.
Proof.
  unfold add_ready. split; [reflexivity|]. split; [reflexivity|].
  split; [discriminate|]. split; [|split].
  - apply elem_of_dom. eexists. reflexivity.
  - apply (bool_decide_unpack _). vm_compute. exact I.
  - intros r Hr. assert (r = 0%nat) as ->.
    { vm_compute in Hr.
      repeat (apply elem_of_cons in Hr as [Hr|Hr]; [congruence|]).
      by apply elem_of_nil in Hr. }
    apply elem_of_dom. eexists. reflexivity.
Defined.

Lemma addItem_stackable_witness :
  exists b w',
    (forall fuel, (Z.to_nat (getStackSize forty_and_thirty 1%nat) < fuel)%nat ->
       addItem equals_type air fuel 0%nat 1%nat forty_and_thirty = Some (b, w')) /\
    add_run equals_type 0%nat 1%nat forty_and_thirty w' /\
    (b = true <-> getStackSize w' 1%nat = 0).
Proof.
  exact (addItem_stackable equals_type air 0%nat 1%nat forty_and_thirty
           forty_and_thirty_ready).
Defined.

(** The second scenario of the specification: thirty stones added to a chest
    of nine slots whose slot 0 holds forty.  Slot 0 ends at sixty-four, the
    six that remain go to slot 1 as a new stack (object 2, not the caller's
    object 1), and the call returns [true]. *)
Example addItem_forty_and_thirty :
  exists w',
    addItem equals_type air 31 0%nat 1%nat forty_and_thirty = Some (true, w') /\
    elems (store w' 0%nat) =
      [Some 0%nat; Some 2%nat; None; None; None; None; None; None; None] /\
    getStackSize w' 0%nat = 64 /\
    getStackSize w' 2%nat = 6 /\
    getStackSize w' 1%nat = 0.
Proof. eexists. split; [vm_compute; reflexivity|]. vm_compute. done. Qed.

(** C1. A sword, which does not stack, is added to a chest with one empty
    slot.  The call reports success and leaves nothing in the caller's
    stack, but the slot holds that very stack object, emptied by the same
    assignment: one unit went in and the slots hold none. *)
Theorem addItem_unstackable_loses_quantity :
  exists w',
    addItem equals_type air 1 0%nat 0%nat chest_and_sword = Some (true, w') /\
    getStackSize chest_and_sword 0%nat = 1 /\
    elems (store w' 0%nat) = [Some 0%nat] /\
    getStackSize w' 0%nat = 0 /\
    total w' 0%nat - total chest_and_sword 0%nat = 0.
Proof. eexists. split; [vm_compute; reflexivity|]. vm_compute. done. Qed.

(** The stackable path on the same chest keeps the quantity. *)
Lemma addItem_stackable_conserves_witness :
  exists b w',
    (forall fuel, (Z.to_nat (getStackSize forty_and_thirty 1%nat) < fuel)%nat ->
       addItem equals_type air fuel 0%nat 1%nat forty_and_thirty = Some (b, w')) /\
    getStackSize forty_and_thirty 1%nat =
      (total w' 0%nat - total forty_and_thirty 0%nat) + getStackSize w' 1%nat.
Proof.
  apply (addItem_stackable_conserves equals_type air 0%nat 1%nat forty_and_thirty
           forty_and_thirty_ready).
  apply (bool_decide_unpack _). vm_compute. exact I.
Defined.

(** * Further properties of the slot operations *)

Section SlotOperations.

Variable Air : string.

Lemma updateSlot_events_packets c k w :
  events (updateSlot c k w) =
  events w ++ slot_packets (occupants (cont w c)) k (slot_descriptor w c k).
Proof.
  unfold updateSlot, slot_packets, slot_descriptor. simpl. f_equal.
  apply map_ext. by intros [p id].
Qed.

Lemma updateSlot_no_occupants c k w :
  occupants (cont w c) = [] -> updateSlot c k w = w.
Proof. intros H. unfold updateSlot. rewrite H. apply emit_nil. Qed.

Lemma storage_at_cleared (s : Storage) z :
  0 <= z -> storage_at (storage_set s (Int z) None) (Int z) = None.
Proof.
  intros Hz. unfold storage_at.
  destruct (z <? 0) eqn:E; [lia|].
  rewrite is_element_storage_set.
  destruct (is_element s z) eqn:El; [|done].
  simpl. rewrite El. simpl.
  unfold is_element in El. apply andb_true_iff in El as [_ El].
  rewrite list_lookup_insert_eq by lia. done.
Qed.

(** [clearSlot] empties the key it resolves and nothing else: every other
    key of every storage reads as before, sizes, occupants and stacks are
    kept.  Each occupant is sent one slot packet; for an index that is not
    negative the packet carries the empty descriptor. *)
Theorem clearSlot_spec (c : cref) (slot : index) (w : World) :
  let k := js_rem slot (size w c) in
  let w' := clearSlot c slot w in
  getItem c slot w' = None /\
  (forall c' k', ~ (c = c' /\ k = k') ->
     storage_get (store w' c') k' = storage_get (store w c') k') /\
  (forall c', size w' c' = size w c' /\
              occupants (cont w' c') = occupants (cont w c')) /\
  items w' = items w /\
  exists d,
    events w' = events w ++ slot_packets (occupants (cont w c)) k d /\
    (forall z, k = Int z -> 0 <= z -> d = EmptyDescriptor).
Proof.
  intros k w'. subst w'.
  split; [apply getItem_clearSlot|].
  split.
  { intros c' k' Hne. rewrite read_clearSlot. fold k. by rewrite decide_False. }
  split.
  { intros c'. split; [apply size_clearSlot|apply occupants_clearSlot]. }
  split; [apply items_clearSlot|].
  rewrite clearSlot_unfold. fold k.
  exists (slot_descriptor (write_slot c k None w) c k).
  rewrite updateSlot_events_packets, occupants_write_slot.
  split; [done|].
  intros z -> Hz. unfold slot_descriptor.
  rewrite store_write_slot, decide_True by done.
  by rewrite storage_at_cleared.
Qed.

Lemma storage_get_empty_storage n k : storage_get (empty_storage n) k = None.
Proof.
  unfold storage_get, empty_storage. destruct k as [z|]; simpl; [|done].
  destruct (is_element _ z); [|done].
  destruct (replicate (Z.to_nat n) None !! Z.to_nat z) as [x|] eqn:E; [|done].
  apply lookup_replicate in E as [-> _]. done.
Qed.

Lemma descriptors_empty_storage (w : World) (n : Z) :
  map (fun item : option ref =>
         match item with
         | None => EmptyDescriptor
         | Some r => toNetworkStack (stack w r)
         end) (elems (empty_storage n)) =
  replicate (Z.to_nat n) EmptyDescriptor.
Proof.
  unfold empty_storage. cbn [elems].
  induction (Z.to_nat n) as [|m IH]; [done|]. simpl. by rewrite IH.
Qed.

Lemma emptySlotsCount_replicate (n : nat) :
  length (filter (fun e : option ref => e = None) (replicate n None)) = n.
Proof.
  induction n as [|n IH]; [done|]. cbn [replicate].
  rewrite filter_cons_True by done. cbn [length]. by rewrite IH.
Qed.

Lemma clear_events (c : cref) (w : World) :
  events (clear c w) = events w ++
    content_packets (occupants (cont w c))
      (replicate (length (elems (store w c))) EmptyDescriptor).
Proof.
  unfold clear.
  set (w1 := update_cont c (with_storage (empty_storage (size w c))) w).
  assert (Hst : store w1 c = empty_storage (size w c)).
  { unfold store, w1. by rewrite cont_update_cont_eq. }
  assert (Hocc : occupants (cont w1 c) = occupants (cont w c)).
  { unfold w1. by rewrite cont_update_cont_eq. }
  case_decide as Hn.
  - rewrite Hocc in Hn. apply nil_length_inv in Hn. rewrite Hn. simpl.
    by rewrite app_nil_r.
  - unfold update. cbn [events emit]. rewrite Hocc, Hst. f_equal.
    unfold content_packets. rewrite descriptors_empty_storage.
    unfold size. rewrite Nat2Z.id. apply map_ext. by intros [p id].
Qed.

(** [clear] leaves every slot of the container empty and keeps its size; the
    other containers, the stacks and the occupants are untouched.  Each
    occupant is sent one content packet listing an empty descriptor for every
    slot; with no occupant nothing is sent. *)
Theorem clear_spec (c : cref) (w : World) :
  let w' := clear c w in
  (forall k, getItem c k w' = None) /\
  size w' c = size w c /\
  Z.of_nat (emptySlotsCount w' c) = size w c /\
  (forall c', c' ≠ c -> cont w' c' = cont w c') /\
  items w' = items w /\
  occupants (cont w' c) = occupants (cont w c) /\
  events w' = events w ++
    content_packets (occupants (cont w c))
      (replicate (length (elems (store w c))) EmptyDescriptor).
Proof.
  intros w'.
  set (w1 := update_cont c (with_storage (empty_storage (size w c))) w).
  assert (Hst : store w1 c = empty_storage (size w c)).
  { unfold store, w1. by rewrite cont_update_cont_eq. }
  assert (Hocc : occupants (cont w1 c) = occupants (cont w c)).
  { unfold w1. by rewrite cont_update_cont_eq. }
  assert (Hev : events w' = events w ++
            content_packets (occupants (cont w c))
              (replicate (length (elems (store w c))) EmptyDescriptor))
    by apply clear_events.
  assert (Hw : forall c', cont w' c' = cont w1 c').
  { intros c'. unfold w', clear. fold w1. by case_decide. }
  assert (Hs : store w' c = empty_storage (size w c)).
  { unfold store. rewrite Hw. exact Hst. }
  assert (Hsize : size w' c = size w c).
  { unfold size at 1. rewrite Hs. unfold empty_storage; simpl.
    rewrite length_replicate. unfold size. lia. }
  split.
  { intros k. unfold getItem. rewrite Hs. apply storage_get_empty_storage. }
  split; [done|]. split.
  { unfold emptySlotsCount. rewrite Hs. unfold empty_storage; simpl.
    rewrite emptySlotsCount_replicate. unfold size. lia. }
  split.
  { intros c' Hne. rewrite Hw. unfold w1. by rewrite cont_update_cont_ne. }
  split.
  { unfold w', clear. fold w1. by case_decide. }
  split; [by rewrite Hw|done].
Qed.

(** [setItem] changes the key it resolves and no other: every other key of
    every storage reads as before, and sizes and occupants are kept. *)
Theorem setItem_frame (c : cref) (slot : index) (item : ref) (w : World) :
  let k := js_rem slot (size w c) in
  let w' := setItem Air c slot item w in
  (forall c' k', ~ (c = c' /\ k = k') ->
     storage_get (store w' c') k' = storage_get (store w c') k') /\
  (forall c', size w' c' = size w c' /\
              occupants (cont w' c') = occupants (cont w c')).
Proof.
  intros k w'. subst w'. split.
  - intros c' k' Hne. rewrite read_setItem. fold k. by rewrite decide_False.
  - intros c'. split; [apply size_setItem|apply occupants_setItem].
Qed.

(** A negative index that the size does not divide reaches no slot: the
    stack is kept under the negative key, where [getItem] with the same
    index finds it, while the slots of the array, and so the count of empty
    slots, stay as they were. *)
Theorem setItem_negative_index (c : cref) (z : Z) (item : ref) (w : World) :
  z < 0 ->
  size w c ≠ 0 ->
  Z.rem z (size w c) ≠ 0 ->
  storable Air w item = true ->
  let w' := setItem Air c (Int z) item w in
  getItem c (Int z) w' = Some item /\
  elems (store w' c) = elems (store w c) /\
  emptySlotsCount w' c = emptySlotsCount w c.
Proof.
  intros Hz Hs Hr Hst w'. subst w'.
  split; [by rewrite getItem_setItem, Hst|].
  assert (E : elems (store (setItem Air c (Int z) item w) c) = elems (store w c)).
  { rewrite store_setItem, decide_True by done. simpl.
    destruct (size w c =? 0) eqn:E0; [lia|]. simpl.
    assert (Z.rem z (size w c) <= 0) by (apply Z.rem_nonpos; lia).
    unfold is_element.
    destruct (0 <=? Z.rem z (size w c)) eqn:E1; [lia|]. done. }
  split; [done|]. unfold emptySlotsCount. by rewrite E.
Qed.

(** For such a negative index the packet that [setItem] sends names the
    negative index and carries the descriptor of the element [size + index],
    whatever that element holds: [updateSlot] reads the storage with [at],
    which counts a negative index from the end, while the stack was stored
    under the negative key, where [getItem] finds it, and no element of the
    array has changed. *)
Theorem setItem_negative_index_packet (c : cref) (z : Z) (item : ref) (w : World) :
  z < 0 ->
  size w c ≠ 0 ->
  Z.rem z (size w c) ≠ 0 ->
  storable Air w item = true ->
  let k := Z.rem z (size w c) in
  let w' := setItem Air c (Int z) item w in
  events w' =
  events w ++
    slot_packets (occupants (cont w c)) (Int k)
      match mjoin (elems (store w c) !! Z.to_nat (size w c + k)) with
      | Some r => StackDescriptor (type (stack w r)) (getStackSize w r)
      | None => EmptyDescriptor
      end /\
  getItem c (Int z) w' = Some item /\
  elems (store w' c) = elems (store w c).
Proof.
  intros Hz Hs Hr Hst k w'. subst w'.
  assert (Hkeep : getItem c (Int z) (setItem Air c (Int z) item w) = Some item /\
                  elems (store (setItem Air c (Int z) item w) c) = elems (store w c)).
  { split; [by rewrite getItem_setItem, Hst|].
    rewrite store_setItem, decide_True by done. simpl.
    destruct (size w c =? 0) eqn:E0; [lia|]. simpl.
    assert (Z.rem z (size w c) <= 0) by (apply Z.rem_nonpos; lia).
    unfold is_element.
    destruct (0 <=? Z.rem z (size w c)) eqn:E1; [lia|]. done. }
  split; [|exact Hkeep]. clear Hkeep.
  assert (Hk : js_rem (Int z) (size w c) = Int k).
  { simpl. destruct (size w c =? 0) eqn:E; [lia|done]. }
  assert (Hneg : - size w c < k < 0).
  { unfold k. pose proof (Z.rem_nonpos z (size w c)).
    pose proof (Z.rem_bound_abs z (size w c) Hs).
    assert (0 <= size w c) by (unfold size; lia). lia. }
  unfold setItem. rewrite Hk.
  change (getStackSize (write_slot c (Int k) (Some item) w) item)
    with (getStackSize w item).
  change (stack (write_slot c (Int k) (Some item) w) item) with (stack w item).
  unfold storable in Hst. apply negb_true_iff in Hst. rewrite Hst.
  rewrite updateSlot_events_packets.
  rewrite cont_update_stack, occupants_write_slot.
  change (events (update_stack ?r ?f ?w0)) with (events w0).
  change (events (write_slot ?c0 ?k0 ?v ?w0)) with (events w0).
  do 2 f_equal.
  unfold slot_descriptor.
  change (store (update_stack ?r ?f ?w0) c) with (store w0 c).
  rewrite store_write_slot, decide_True by done.
  unfold storage_at. rewrite storage_set_length.
  destruct (k <? 0) eqn:E; [|lia].
  rewrite is_element_storage_set. fold (size w c).
  unfold is_element. fold (size w c).
  destruct (0 <=? size w c + k) eqn:E1; [|lia].
  destruct (size w c + k <? size w c) eqn:E2; [|lia].
  cbn [andb storage_set]. unfold is_element. fold (size w c).
  destruct (0 <=? k) eqn:E3; [lia|]. cbn [andb elems].
  destruct (mjoin (elems (store w c) !! Z.to_nat (size w c + k))) as [r|]; [|done].
  unfold toNetworkStack, getStackSize. rewrite stack_update_stack.
  change (stack (write_slot ?c0 ?k0 ?v ?w0) ?r0) with (stack w0 r0).
  destruct (decide (item = r)) as [->|]; reflexivity.
Qed.

End SlotOperations.

Lemma setItem_negative_index_packet_witness :
  let w := world_of [plain stone 5; plain dirt 3] [None; Some 0%nat; None]
                    [(7%nat, 1)] in
  let w' := setItem air 0%nat (Int (-2)) 1%nat w in
  events w' =
    [Send 7%nat (InventorySlotPacket 1 (Int (-2)) (StackDescriptor stone 5))] /\
  getItem 0%nat (Int (-2)) w' = Some 1%nat /\
  elems (store w' 0%nat) = [None; Some 0%nat; None].
Proof.
  apply (setItem_negative_index_packet air 0%nat (-2) 1%nat
           (world_of [plain stone 5; plain dirt 3] [None; Some 0%nat; None]
                     [(7%nat, 1)]));
    vm_compute; congruence.
Defined.

Lemma setItem_negative_index_witness :
  let w' := setItem air 0%nat (Int (-1)) 0%nat small_chest in
  getItem 0%nat (Int (-1)) w' = Some 0%nat /\
  elems (store w' 0%nat) = elems (store small_chest 0%nat) /\
  emptySlotsCount w' 0%nat = emptySlotsCount small_chest 0%nat.
Proof.
  apply (setItem_negative_index air 0%nat (-1) 0%nat small_chest);
    vm_compute; congruence.
Defined.

(** * What is sent when nobody views the container *)

Section Quiet.

Variable equals : ItemStack -> ItemStack -> bool.
Variable Air : string.

Lemma clearSlot_quiet c k w :
  occupants (cont w c) = [] -> events (clearSlot c k w) = events w.
Proof.
  intros H. rewrite clearSlot_unfold, updateSlot_no_occupants; [done|].
  by rewrite occupants_write_slot.
Qed.

Lemma setItem_quiet c k item w :
  occupants (cont w c) = [] -> events (setItem Air c k item w) = events w.
Proof.
  intros H. unfold setItem. rewrite updateSlot_no_occupants.
  - change (events (update_stack ?r ?f ?w0)) with (events w0).
    destruct (_ || _); [|done]. rewrite clearSlot_quiet; [done|].
    by rewrite occupants_write_slot.
  - rewrite cont_update_stack.
    destruct (_ || _); [rewrite occupants_clearSlot|]; by rewrite occupants_write_slot.
Qed.

Lemma containers_clearSlot_occupants c k w c' :
  occupants (cont (clearSlot c k w) c') = occupants (cont w c').
Proof. apply occupants_clearSlot. Qed.

(** Cloning traits touches neither the containers nor what was sent. *)
Lemma foldl_clone_frame (r : ref) (l : list tref) (w : World) :
  let w' := foldl (fun w trait =>
                     let '(cloned, w) := clone_trait trait r w in
                     addTrait r cloned w) w l in
  containers w' = containers w /\ events w' = events w /\
  (forall r0, r0 ≠ r -> stack w' r0 = stack w r0).
Proof.
  revert w. induction l as [|t l IH]; intros w; cbn [foldl]; [done|].
  destruct (IH (let '(cloned, w0) := clone_trait t r w in addTrait r cloned w0))
    as (H1 & H2 & H3).
  cbv zeta in *. rewrite H1, H2. split; [done|]. split; [done|].
  intros r0 Hr0. rewrite H3 by done. unfold clone_trait, addTrait.
  by rewrite stack_update_stack_ne.
Qed.

Lemma takeItem_quiet c slot amount w :
  occupants (cont w c) = [] -> events (snd (takeItem c slot amount w)) = events w.
Proof.
  intros Hocc. unfold takeItem. rewrite getItem_js_rem.
  destruct (getItem c slot w) as [item|]; [|done].
  destruct (amount =? getStackSize w item).
  { cbn [snd]. by apply clearSlot_quiet. }
  set (k := js_rem slot (size w c)).
  set (taken := Z.min amount (getStackSize w item)).
  set (w1 := decrementStack item taken w).
  set (w2 := if getStackSize w1 item =? 0 then clearSlot c k w1 else w1).
  assert (E2 : events w2 = events w).
  { unfold w2. case (_ =? 0); [|done]. by rewrite clearSlot_quiet. }
  assert (O2 : occupants (cont w2 c) = []).
  { unfold w2. case (_ =? 0); [|done]. by rewrite occupants_clearSlot. }
  unfold new_ItemStack.
  set (r := fresh (dom (items w2))).
  set (w3 := set_items _ w2).
  set (w4 := foldl _ w3 _).
  destruct (foldl_setDynamicProperty r
              (map_to_list (dynamicProperties (stack w3 item))) w3)
    as (C4 & _ & E4 & _). fold w4 in C4, E4.
  set (w5 := foldl _ w4 _).
  destruct (foldl_clone_frame r (traits (stack w4 item)) w4) as (C5 & E5 & _).
  fold w5 in C5, E5.
  set (w6 := updateSlot c k w5).
  assert (E6 : w6 = w5).
  { apply updateSlot_no_occupants. unfold cont. rewrite C5, C4. exact O2. }
  set (w7 := foldl _ w6 _).
  destruct (foldl_nbt_add r (map_to_list (nbt (stack w6 item))) w6)
    as (_ & _ & E7 & _). fold w7 in E7.
  cbn [snd]. rewrite E7, E6, E5, E4. exact E2.
Qed.

Lemma removeItem_quiet c slot amount w :
  events (snd (removeItem c slot amount w)) = events w.
Proof.
  unfold removeItem. destruct (getItem c _ w) as [item|]; [|done].
  cbn [snd]. by destruct (_ =? 0).
Qed.

Lemma swapItems_quiet c a b oc w :
  occupants (cont w c) = [] ->
  occupants (cont w (default c oc)) = [] ->
  events (swapItems Air c a b oc w) = events w.
Proof.
  intros Hc Ht. unfold swapItems.
  set (t := default c oc) in *.
  set (ka := js_rem a (size w c)). set (kb := js_rem b (size w t)).
  set (w1 := clearSlot c ka w).
  set (w2 := clearSlot t kb w1).
  assert (E1 : events w1 = events w) by (by apply clearSlot_quiet).
  assert (E2 : events w2 = events w).
  { unfold w2. rewrite clearSlot_quiet; [done|].
    unfold w1. by rewrite occupants_clearSlot. }
  assert (O2 : forall c', occupants (cont w2 c') = occupants (cont w c')).
  { intros c'. unfold w2, w1. by rewrite !occupants_clearSlot. }
  destruct (getItem c ka w) as [item|], (getItem t kb w) as [other|].
  - rewrite setItem_quiet.
    + rewrite setItem_quiet; [done|]. by rewrite O2.
    + by rewrite occupants_setItem, O2.
  - rewrite setItem_quiet; [done|]. by rewrite O2.
  - rewrite setItem_quiet; [done|]. by rewrite O2.
  - done.
Qed.

(** The loop of [addItem] keeps the size and the occupants of every
    container, and sends nothing when the container has no occupant. *)
Lemma addItem_loop_frame fuel c item w :
  match addItem_loop equals Air fuel c item w with
  | Some w' =>
      (forall c', size w' c' = size w c' /\
                  occupants (cont w' c') = occupants (cont w c')) /\
      (occupants (cont w c) = [] -> events w' = events w)
  | None => True
  end.
Proof.
  revert w. induction fuel as [|fuel IH]; intros w; cbn [addItem_loop]; [done|].
  destruct (getStackSize w item >? 0); [|done].
  destruct (findIndex_accepting equals w item (store w c)) as [[i [r|]]|].
  - match goal with |- context [addItem_loop _ _ fuel c item ?w1] =>
      specialize (IH w1) end.
    destruct (addItem_loop _ _ fuel c item _) as [w'|]; [|done].
    exact IH.
  - destruct (indexOf_null (store w c)) as [e|]; [|done].
    unfold new_ItemStack. cbv zeta.
    match goal with |- context [addItem_loop _ _ fuel c item ?w1] =>
      specialize (IH w1); set (wn := w1) in * end.
    destruct (addItem_loop _ _ fuel c item wn) as [w'|]; [|done].
    destruct IH as [IH1 IH2].
    assert (Hs : forall c', size wn c' = size w c' /\
                            occupants (cont wn c') = occupants (cont w c')).
    { intros c'. unfold wn, decrementStack, setStackSize, size, store.
      rewrite !cont_update_stack.
      fold (store (setItem Air c (Int (Z.of_nat e)) (fresh (dom (items w)))
              (set_items (fun m => <[fresh (dom (items w)) :=
                 mkItemStack (type (stack w item))
                   (Z.min (maxStackSize w item) (getStackSize w item))
                   None ∅ [] ∅]> m) w)) c').
      fold (size (setItem Air c (Int (Z.of_nat e)) (fresh (dom (items w)))
              (set_items (fun m => <[fresh (dom (items w)) :=
                 mkItemStack (type (stack w item))
                   (Z.min (maxStackSize w item) (getStackSize w item))
                   None ∅ [] ∅]> m) w)) c').
      by rewrite size_setItem, occupants_setItem. }
    split.
    + intros c'. destruct (IH1 c') as [-> ->]. apply Hs.
    + intros Ho. rewrite IH2 by (by rewrite (proj2 (Hs c))).
      unfold wn, decrementStack, setStackSize.
      change (events (update_stack ?r ?f ?w0)) with (events w0).
      by rewrite setItem_quiet.
  - destruct (indexOf_null (store w c)) as [e|]; [|done].
    unfold new_ItemStack. cbv zeta.
    match goal with |- context [addItem_loop _ _ fuel c item ?w1] =>
      specialize (IH w1); set (wn := w1) in * end.
    destruct (addItem_loop _ _ fuel c item wn) as [w'|]; [|done].
    destruct IH as [IH1 IH2].
    assert (Hs : forall c', size wn c' = size w c' /\
                            occupants (cont wn c') = occupants (cont w c')).
    { intros c'. unfold wn, decrementStack, setStackSize, size, store.
      rewrite !cont_update_stack.
      fold (store (setItem Air c (Int (Z.of_nat e)) (fresh (dom (items w)))
              (set_items (fun m => <[fresh (dom (items w)) :=
                 mkItemStack (type (stack w item))
                   (Z.min (maxStackSize w item) (getStackSize w item))
                   None ∅ [] ∅]> m) w)) c').
      fold (size (setItem Air c (Int (Z.of_nat e)) (fresh (dom (items w)))
              (set_items (fun m => <[fresh (dom (items w)) :=
                 mkItemStack (type (stack w item))
                   (Z.min (maxStackSize w item) (getStackSize w item))
                   None ∅ [] ∅]> m) w)) c').
      by rewrite size_setItem, occupants_setItem. }
    split.
    + intros c'. destruct (IH1 c') as [-> ->]. apply Hs.
    + intros Ho. rewrite IH2 by (by rewrite (proj2 (Hs c))).
      unfold wn, decrementStack, setStackSize.
      change (events (update_stack ?r ?f ?w0)) with (events w0).
      by rewrite setItem_quiet.
Qed.

(** [addItem] never resizes a container and never changes who views it,
    whichever path it takes and whether or not it returns [true]. *)
Theorem addItem_keeps_size_and_occupants (fuel : nat) (c : cref) (item : ref)
    (w : World) :
  match addItem equals Air fuel c item w with
  | Some (b, w') =>
      forall c', size w' c' = size w c' /\
                 occupants (cont w' c') = occupants (cont w c')
  | None => True
  end.
Proof.
  unfold addItem. destruct (negb (isStackable w item)).
  - destruct (indexOf_null (store w c)) as [e|]; [|done].
    intros c'. unfold setStackSize, size, store. rewrite !cont_update_stack.
    fold (store (setItem Air c (Int (Z.of_nat e)) item w) c').
    fold (size (setItem Air c (Int (Z.of_nat e)) item w) c').
    by rewrite size_setItem, occupants_setItem.
  - pose proof (addItem_loop_frame fuel c item w) as H.
    destruct (addItem_loop equals Air fuel c item w) as [w'|]; [|done].
    apply H.
Qed.

(** With no occupant, no operation on the container sends anything or runs
    any callback: the log of events is left as it was by [setItem],
    [clearSlot], [clear], [update], [updateSlot], [takeItem], [removeItem],
    [swapItems] within the container, and [addItem]. *)
Theorem no_occupants_no_events (c : cref) (w : World) :
  occupants (cont w c) = [] ->
  (forall slot item, events (setItem Air c slot item w) = events w) /\
  (forall slot, events (clearSlot c slot w) = events w) /\
  events (clear c w) = events w /\
  events (update c w) = events w /\
  (forall slot, events (updateSlot c slot w) = events w) /\
  (forall slot amount, events (snd (takeItem c slot amount w)) = events w) /\
  (forall slot amount, events (snd (removeItem c slot amount w)) = events w) /\
  (forall a b, events (swapItems Air c a b None w) = events w) /\
  (forall fuel item,
     match addItem equals Air fuel c item w with
     | Some (b, w') => events w' = events w
     | None => True
     end).
Proof.
  intros Ho.
  split; [intros; by apply setItem_quiet|].
  split; [intros; by apply clearSlot_quiet|].
  split.
  { rewrite clear_events, Ho. apply app_nil_r. }
  split.
  { unfold update. cbn [events emit]. rewrite Ho. apply app_nil_r. }
  split; [intros; by rewrite updateSlot_no_occupants|].
  split; [intros; by apply takeItem_quiet|].
  split; [intros; apply removeItem_quiet|].
  split; [intros; by apply swapItems_quiet|].
  intros fuel item. unfold addItem. destruct (negb (isStackable w item)).
  - destruct (indexOf_null (store w c)) as [e|]; [|done].
    unfold setStackSize.
    change (events (update_stack ?r ?f ?w0)) with (events w0).
    by apply setItem_quiet.
  - pose proof (addItem_loop_frame fuel c item w) as H.
    destruct (addItem_loop equals Air fuel c item w) as [w'|]; [|done].
    by apply H.
Qed.

End Quiet.

Lemma no_occupants_no_events_witness :
  events (snd (takeItem 0%nat (Int 1) 2 small_chest)) = events small_chest /\
  events (clear 0%nat small_chest) = events small_chest.
Proof.
  destruct (no_occupants_no_events equals_type air 0%nat small_chest)
    as (_ & _ & Hc & _ & _ & Ht & _); [reflexivity|].
  split; [apply Ht|exact Hc].
Defined.

(** * Empty slots, construction, resizing *)

Section Capacity.

Variable equals : ItemStack -> ItemStack -> bool.
Variable Air : string.

Lemma filter_none_length (l : list (option ref)) :
  (length (filter (fun e : option ref => e = None) l) + length (omap id l)
   = length l)%nat.
Proof.
  induction l as [|[r|] l IH].
  - done.
  - rewrite filter_cons_False by done.
    change (omap id (Some r :: l)) with (r :: omap id l). cbn [length]. lia.
  - rewrite filter_cons_True by done.
    change (omap id (None :: l)) with (omap id l). cbn [length]. lia.
Qed.

Lemma filter_none_empty (l : list (option ref)) :
  length (filter (fun e : option ref => e = None) l) = 0%nat <->
  Forall (fun e => e ≠ None) l.
Proof.
  induction l as [|[r|] l IH].
  - split; [constructor|done].
  - rewrite filter_cons_False by done. rewrite IH. split.
    + intros H. by constructor.
    + intros H. by inversion H.
  - rewrite filter_cons_True by done. cbn [length]. split; [done|].
    intros H. by inversion H.
Qed.

Lemma isFull_occupied (w : World) (c : cref) :
  isFull w c = true <-> Forall (fun e => e ≠ None) (elems (store w c)).
Proof.
  unfold isFull, emptySlotsCount. rewrite bool_decide_eq_true.
  apply filter_none_empty.
Qed.

Lemma isFull_indexOf_null (w : World) (c : cref) :
  isFull w c = true <-> indexOf_null (store w c) = None.
Proof.
  rewrite isFull_occupied. unfold indexOf_null.
  destruct (list_find _ (elems (store w c))) as [[i x]|] eqn:Hf; simpl.
  - split; [|done]. intros Hall.
    apply list_find_Some in Hf as (Hi & Hx & _).
    rewrite Forall_forall in Hall. exfalso.
    apply (Hall x); [|done]. apply list_elem_of_lookup. eauto.
  - split; [done|]. intros _. by apply list_find_None in Hf.
Qed.

(** [emptySlotsCount] and the stored stacks add up to the size; [isFull]
    holds exactly when every slot is occupied, which is exactly when
    [indexOf(null)] finds nothing. *)
Theorem isFull_spec (w : World) (c : cref) :
  Z.of_nat (emptySlotsCount w c) + Z.of_nat (length (omap id (elems (store w c))))
    = size w c /\
  (isFull w c = true <-> Forall (fun e => e ≠ None) (elems (store w c))) /\
  (isFull w c = true <-> indexOf_null (store w c) = None).
Proof.
  split; [|split; [apply isFull_occupied|apply isFull_indexOf_null]].
  unfold emptySlotsCount, size.
  pose proof (filter_none_length (elems (store w c))) as Hlen. lia.
Qed.


Lemma set_size_elems (c : cref) (value : Z) (w : World) :
  0 <= value ->
  exists w', set_size c value w = Ok w' /\
    (forall c', c' ≠ c -> cont w' c' = cont w c') /\
    items w' = items w /\ events w' = events w /\
    nextContainerId w' = nextContainerId w /\
    cont w' c = with_storage (storage (cont w' c)) (cont w c) /\
    props (store w' c) = ∅ /\
    elems (store w' c) =
      take (Z.to_nat value) (elems (store w c)) ++
      replicate (Z.to_nat value - length (elems (store w c))) None.
Proof.
  intros Hv. unfold set_size. destruct (value <? 0) eqn:E; [lia|].
  eexists. split; [done|].
  split; [intros c' Hc; by rewrite cont_update_cont_ne|].
  split; [done|]. split; [done|]. split; [done|].
  unfold store. rewrite cont_update_cont_eq. cbn [storage with_storage elems props].
  split; [done|]. split; [done|]. apply resized_array.
Qed.

(** [new Container(type, size)] throws exactly when the size is negative.
    Otherwise it yields a container that was not there before, of that type
    and size, with every slot empty and nobody viewing it; containers that
    existed, stacks, the event log and the identifier counter are
    untouched. *)
Theorem new_Container_spec (ty : ContainerType) (n : Z) (w : World) :
  (new_Container ty n w = Throw NegativeSize <-> n < 0) /\
  (0 <= n ->
   exists c w', new_Container ty n w = Ok (c, w') /\
     (c ∉ dom (containers w)) /\
     ctype (cont w' c) = ty /\
     occupants (cont w' c) = [] /\
     size w' c = n /\
     (forall k, getItem c k w' = None) /\
     Z.of_nat (emptySlotsCount w' c) = n /\
     (forall c', c' ≠ c -> cont w' c' = cont w c') /\
     items w' = items w /\ events w' = events w /\
     nextContainerId w' = nextContainerId w).
Proof.
  unfold new_Container.
  set (c := fresh (dom (containers w))).
  set (w0 := set_containers _ w).
  assert (Hfresh : c ∉ dom (containers w)) by apply is_fresh.
  split.
  - unfold set_size. destruct (n <? 0) eqn:E; split; (done || lia).
  - intros Hn.
    destruct (set_size_elems c n w0 Hn) as (w1 & -> & Hother & Hi & He & Hid & Hc & _).
    exists c. eexists. split; [done|]. split; [done|].
    assert (Hc0 : cont w0 c = mkContainer ty None (mkStorage [] ∅) []).
    { unfold w0, cont, set_containers; cbn [containers].
      apply lookup_total_insert_eq. }
    assert (Hst : store (update_cont c (with_storage (empty_storage n)) w1) c
                  = empty_storage n).
    { unfold store. by rewrite cont_update_cont_eq. }
    rewrite cont_update_cont_eq, Hc, Hc0. cbn [ctype occupants with_storage].
    split; [done|]. split; [done|]. split.
    { unfold size. rewrite Hst. unfold empty_storage; cbn [elems].
      rewrite length_replicate. lia. }
    split.
    { intros k. unfold getItem. rewrite Hst. apply storage_get_empty_storage. }
    split.
    { unfold emptySlotsCount. rewrite Hst. unfold empty_storage; cbn [elems].
      rewrite emptySlotsCount_replicate. lia. }
    split.
    { intros c' Hne. rewrite cont_update_cont_ne by done.
      rewrite Hother by done. unfold w0, cont, set_containers; cbn [containers].
      by rewrite lookup_total_insert_ne. }
    split; [exact Hi|]. split; [exact He|exact Hid].
Qed.

(** Growing a container and then setting the size back gives the slots it
    had: the slots added by the first resize are the ones the second
    drops. *)
Theorem set_size_grow_then_shrink (c : cref) (n : Z) (w : World) :
  size w c <= n ->
  exists w1 w2,
    set_size c n w = Ok w1 /\
    size w1 c = n /\
    set_size c (size w c) w1 = Ok w2 /\
    elems (store w2 c) = elems (store w c).
Proof.
  intros Hn. unfold size in *.
  destruct (set_size_elems c n w ltac:(lia)) as (w1 & H1 & _ & _ & _ & _ & _ & _ & E1).
  destruct (set_size_elems c (Z.of_nat (length (elems (store w c)))) w1 ltac:(lia))
    as (w2 & H2 & _ & _ & _ & _ & _ & _ & E2).
  exists w1, w2. split; [done|].
  rewrite take_ge in E1 by lia.
  split.
  { rewrite E1, length_app, length_replicate. lia. }
  split; [done|].
  rewrite E2, E1, Nat2Z.id, take_app_length.
  rewrite length_app, length_replicate.
  replace (length (elems (store w c)) - _)%nat with 0%nat by lia.
  apply app_nil_r.
Qed.

End Capacity.

Lemma new_Container_spec_witness :
  exists c w', new_Container 0 9 (initial First_id) = Ok (c, w') /\
    size w' c = 9 /\ Z.of_nat (emptySlotsCount w' c) = 9.
Proof.
  destruct (proj2 (new_Container_spec 0 9 (initial First_id)))
    as (c & w' & H1 & _ & _ & _ & H2 & _ & H3 & _); [lia|].
  exists c, w'. split; [exact H1|]. split; [exact H2|exact H3].
Defined.

Lemma set_size_grow_then_shrink_witness :
  exists w1 w2,
    set_size 0%nat 5 small_chest = Ok w1 /\
    size w1 0%nat = 5 /\
    set_size 0%nat (size small_chest 0%nat) w1 = Ok w2 /\
    elems (store w2 0%nat) = elems (store small_chest 0%nat).
Proof.
  apply (set_size_grow_then_shrink 0%nat 5 small_chest). vm_compute. discriminate.
Defined.

Lemma getItem_nonneg_witness :
  0 <= 10 mod size small_chest 0%nat < size small_chest 0%nat /\
  getItem 0%nat (Int 10) small_chest =
    mjoin (elems (store small_chest 0%nat) !! Z.to_nat (10 mod size small_chest 0%nat)).
Proof.
  apply (getItem_nonneg 0%nat 10 small_chest); [lia|reflexivity].
Defined.


(** * Further properties of showing and closing *)

Section Viewers.

Variables First Last : Z.

Lemma occ_delete_set o p v :
  occ_get o p = None -> occ_delete (occ_set o p v) p = o.
Proof.
  unfold occ_delete. induction o as [|[q u] o IH]; intros H; cbn [occ_set occ_get] in *.
  - rewrite filter_cons_False by (simpl; auto). done.
  - destruct (decide (q = p)) as [->|Hne]; [done|].
    rewrite filter_cons_True by done. by rewrite IH.
Qed.

Lemma trait_events_ext mk c p w1 w2 :
  store w1 c = store w2 c -> items w1 = items w2 ->
  trait_events mk c p w1 = trait_events mk c p w2.
Proof. intros H1 H2. unfold trait_events, stack. by rewrite H1, H2. Qed.

Lemma getNextContainerId_frame w :
  let w' := snd (getNextContainerId First Last w) in
  containers w' = containers w /\ items w' = items w /\
  openedContainer w' = openedContainer w /\ events w' = events w.
Proof. unfold getNextContainerId. by destruct (_ >? _). Qed.

Lemma register_facts c p w :
  let id := fst (getNextContainerId First Last w) in
  let w' := snd (register First Last c p w) in
  fst (register First Last c p w) = id /\
  items w' = items w /\
  openedContainer w' = <[p := c]> (openedContainer w) /\
  (forall c', store w' c' = store w c') /\
  nextContainerId w' = nextContainerId (snd (getNextContainerId First Last w)) /\
  events w' = events w ++ trait_events OnContainerOpen c p w.
Proof.
  unfold register.
  destruct (getNextContainerId_frame w) as (Hc & Hi & Ho & He).
  destruct (getNextContainerId First Last w) as [id w0]. cbn [fst snd] in *.
  split; [done|]. split; [done|]. split; [by cbn; rewrite Ho|].
  assert (Hs : forall c',
             store (update_cont c
                      (fun k => with_occupants (occ_set (occupants k) p id) k) w0) c'
             = store w c').
  { intros c'. unfold store. rewrite cont_update_cont.
    case_decide; subst; unfold cont; by rewrite Hc. }
  split; [exact Hs|]. split; [done|].
  cbn [events emit]. change (events (set_openedContainer ?f ?w1)) with (events w1).
  change (events (update_cont ?c0 ?f ?w1)) with (events w1).
  rewrite He. f_equal.
  apply trait_events_ext; [apply Hs|done].
Qed.

Lemma close_facts c p b w w' :
  close c p b w = Ok w' ->
  exists id,
    occ_get (occupants (cont w c)) p = Some id /\
    items w' = items w /\
    openedContainer w' = delete p (openedContainer w) /\
    (forall c', store w' c' = store w c') /\
    nextContainerId w' = nextContainerId w /\
    events w' = events w ++
      Send p (ContainerClosePacket id (ctype (cont w c)) b)
      :: trait_events OnContainerClose c p w.
Proof.
  unfold close. destruct (occ_get _ p) as [id|]; [|done].
  intros [= <-]. exists id. split; [done|]. split; [done|]. split; [done|].
  assert (Hs : forall c',
             store (update_cont c
                      (fun k => with_occupants (occ_delete (occupants k) p) k)
                      (set_openedContainer (delete p)
                         (emit [Send p (ContainerClosePacket id (ctype (cont w c)) b)]
                            w))) c' = store w c').
  { intros c'. unfold store. rewrite cont_update_cont. by case_decide; subst. }
  split; [exact Hs|]. split; [done|].
  cbn [events emit].
  change (events (update_cont ?c0 ?f ?w1)) with (events w1).
  change (events (set_openedContainer ?f ?w1)) with (events w1).
  cbn [events emit]. rewrite <- app_assoc. cbn [app]. do 2 f_equal.
  apply trait_events_ext; [apply Hs|done].
Qed.

(** [close] throws, with the not-viewing error, exactly when the player is
    not an occupant.  Otherwise the player is sent one close packet with the
    identifier it was registered under, is removed from the occupants while
    the other occupants keep their identifiers, and its open-container
    reference is reset, whichever container it pointed to; no slot
    changes. *)
Theorem close_spec (c : cref) (p : Player) (b : bool) (w : World) :
  match close c p b w with
  | Throw e => e = NotViewing /\ occ_get (occupants (cont w c)) p = None
  | Ok w' =>
      exists id,
        occ_get (occupants (cont w c)) p = Some id /\
        (forall q, occ_get (occupants (cont w' c)) q =
                   if decide (p = q) then None else occ_get (occupants (cont w c)) q) /\
        (forall c', c' ≠ c -> cont w' c' = cont w c') /\
        openedContainer w' = delete p (openedContainer w) /\
        (forall c', store w' c' = store w c') /\
        items w' = items w /\
        events w' = events w ++
          Send p (ContainerClosePacket id (ctype (cont w c)) b)
          :: trait_events OnContainerClose c p w
  end.
Proof.
  destruct (close c p b w) as [w'|e] eqn:H.
  - destruct (close_facts c p b w w' H) as (id & H1 & H2 & H3 & H4 & _ & H6).
    pose proof (cont_close c p b w w' H) as Hc.
    exists id. split; [done|]. split.
    { intros q. rewrite Hc, decide_True by done. cbn [occupants with_occupants].
      apply occ_get_delete. }
    split; [intros c' Hne; by rewrite Hc, decide_False|].
    done.
  - unfold close in H. destruct (occ_get _ p); [done|]. by injection H as <-.
Qed.

(** A player with nothing open who is shown a container and then closes it:
    both calls succeed, the close packet carries the identifier that [show]
    returned, and every container and the player's open-container reference
    are back as they were. *)
Theorem show_then_close (c : cref) (p : Player) (b : bool) (w : World) :
  openedContainer w !! p = None ->
  occ_get (occupants (cont w c)) p = None ->
  exists id w1 w2,
    show First Last c p w = Ok (id, w1) /\
    close c p b w1 = Ok w2 /\
    (forall c', cont w2 c' = cont w c') /\
    openedContainer w2 = openedContainer w /\
    items w2 = items w /\
    events w2 = events w ++ trait_events OnContainerOpen c p w ++
      Send p (ContainerClosePacket id (ctype (cont w c)) b)
      :: trait_events OnContainerClose c p w.
Proof.
  intros Ho Hn. unfold show. rewrite Ho.
  destruct (register_facts c p w) as (Hid & Hi & Hop & Hs & _ & He).
  pose proof (cont_register First Last c p w) as Hc.
  destruct (register First Last c p w) as [id w1]. cbn [fst snd] in *.
  assert (Hocc : occ_get (occupants (cont w1 c)) p = Some id).
  { rewrite Hc, decide_True by done. cbn [occupants with_occupants].
    rewrite occ_get_set, decide_True by done. by rewrite Hid. }
  destruct (close c p b w1) as [w2|e] eqn:Hcl.
  2:{ unfold close in Hcl. by rewrite Hocc in Hcl. }
  destruct (close_facts c p b w1 w2 Hcl) as (id' & H1 & H2 & H3 & H4 & _ & H6).
  pose proof (cont_close c p b w1 w2 Hcl) as Hc2.
  rewrite Hocc in H1. injection H1 as <-.
  exists id, w1, w2. split; [done|]. split; [done|].
  split; [|split; [|split]].
  - intros c'. rewrite Hc2. case_decide as E.
    + subst c'. rewrite Hc, decide_True by done.
      cbn [occupants with_occupants ctype cidentifier storage].
      rewrite occ_delete_set by done. by destruct (cont w c).
    + by rewrite Hc, decide_False.
  - rewrite H3, Hop. by apply delete_insert_id.
  - by rewrite H2.
  - rewrite H6, He, <- app_assoc. do 3 f_equal.
    + rewrite Hc, decide_True by done. done.
    + apply trait_events_ext; [apply Hs|done].
Qed.

(** [show] for one player leaves every other player as it was: the same
    open container, the same identifier in every container.  It changes no
    slot and no stack. *)
Theorem show_keeps_other_viewers (c : cref) (p : Player) (w : World) :
  match show First Last c p w with
  | Ok (id, w') =>
      (forall q, q ≠ p ->
         openedContainer w' !! q = openedContainer w !! q /\
         forall c', occ_get (occupants (cont w' c')) q =
                    occ_get (occupants (cont w c')) q) /\
      (forall c', store w' c' = store w c') /\
      items w' = items w
  | Throw _ => True
  end.
Proof.
  assert (Hreg : forall w0,
    (forall q, q ≠ p ->
       openedContainer (snd (register First Last c p w0)) !! q =
         openedContainer w0 !! q /\
       forall c', occ_get (occupants (cont (snd (register First Last c p w0)) c')) q =
                  occ_get (occupants (cont w0 c')) q) /\
    (forall c', store (snd (register First Last c p w0)) c' = store w0 c') /\
    items (snd (register First Last c p w0)) = items w0).
  { intros w0. destruct (register_facts c p w0) as (_ & Hi & Hop & Hs & _).
    split; [|done]. intros q Hq. split.
    - rewrite Hop. by apply lookup_insert_ne.
    - intros c'. rewrite cont_register. case_decide; [|done].
      subst. cbn [occupants with_occupants]. by rewrite occ_get_set, decide_False. }
  unfold show. destruct (openedContainer w !! p) as [x|] eqn:Ho.
  - destruct (close x p true w) as [w1|e] eqn:Hcl; [|done].
    destruct (close_facts x p true w w1 Hcl) as (id' & _ & H2 & H3 & H4 & _).
    pose proof (cont_close x p true w w1 Hcl) as Hc.
    destruct (Hreg w1) as (R1 & R2 & R3).
    destruct (register First Last c p w1) as [id w']. cbn [snd] in *.
    split; [|split].
    + intros q Hq. destruct (R1 q Hq) as [-> R]. split.
      * rewrite H3. by apply lookup_delete_ne.
      * intros c'. rewrite R, Hc. case_decide; [|done].
        subst. cbn [occupants with_occupants]. by rewrite occ_get_delete, decide_False.
    + intros c'. by rewrite R2.
    + by rewrite R3.
  - destruct (Hreg w) as (R1 & R2 & R3).
    by destruct (register First Last c p w) as [id w'].
Qed.

(** [show] throws exactly when the player's open-container reference is
    stale: it names a container whose occupants do not list the player.  The
    error is the not-viewing error of [close]. *)
Theorem show_throws_iff_stale (c : cref) (p : Player) (w : World) (e : Error) :
  show First Last c p w = Throw e <->
  e = NotViewing /\
  exists x, openedContainer w !! p = Some x /\
            occ_get (occupants (cont w x)) p = None.
Proof.
  unfold show. destruct (openedContainer w !! p) as [x|] eqn:Ho.
  - unfold close. destruct (occ_get (occupants (cont w x)) p) as [id|] eqn:Hg.
    + split; [done|]. intros (_ & x' & [= <-] & H). congruence.
    + split.
      * intros [= <-]. eauto.
      * by intros (-> & _).
  - split; [done|]. by intros (_ & x & ? & _).
Qed.

(** While the counter is within its range, the identifier [show] returns
    lies in [[First, Last]], it is the identifier recorded for the player in
    the container, and the counter stays within its range. *)
Theorem show_identifier (c : cref) (p : Player) (w : World) :
  First <= Last ->
  First <= nextContainerId w <= Last + 1 ->
  match show First Last c p w with
  | Ok (id, w') =>
      First <= id <= Last /\
      occ_get (occupants (cont w' c)) p = Some id /\
      First <= nextContainerId w' <= Last + 1
  | Throw _ => True
  end.
Proof.
  intros HFL Hn.
  assert (Hreg : forall w0, First <= nextContainerId w0 <= Last + 1 ->
    First <= fst (register First Last c p w0) <= Last /\
    occ_get (occupants (cont (snd (register First Last c p w0)) c)) p
      = Some (fst (register First Last c p w0)) /\
    First <= nextContainerId (snd (register First Last c p w0)) <= Last + 1).
  { intros w0 H0. destruct (register_facts c p w0) as (Hid & _ & _ & _ & Hnx & _).
    destruct (getNextContainerId_bound First Last HFL w0 H0) as [B1 B2].
    rewrite Hid, Hnx. split; [done|]. split; [|done].
    rewrite cont_register, decide_True by done. cbn [occupants with_occupants].
    by rewrite occ_get_set, decide_True. }
  unfold show. destruct (openedContainer w !! p) as [x|].
  - destruct (close x p true w) as [w1|e] eqn:Hcl; [|done].
    destruct (close_facts x p true w w1 Hcl) as (id' & _ & _ & _ & _ & H5 & _).
    rewrite <- H5 in Hn. specialize (Hreg w1 Hn).
    by destruct (register First Last c p w1) as [id w'].
  - specialize (Hreg w Hn). by destruct (register First Last c p w) as [id w'].
Qed.

End Viewers.

Lemma show_then_close_witness :
  exists id w1 w2,
    show First_id Last_id 0%nat 7%nat two_chests = Ok (id, w1) /\
    close 0%nat 7%nat false w1 = Ok w2 /\
    openedContainer w2 = openedContainer two_chests.
Proof.
  destruct (show_then_close First_id Last_id 0%nat 7%nat false two_chests)
    as (id & w1 & w2 & H1 & H2 & _ & H3 & _); [reflexivity..|].
  exists id, w1, w2. split; [exact H1|]. split; [exact H2|exact H3].
Defined.

Lemma show_identifier_witness :
  match show First_id Last_id 0%nat 7%nat two_chests with
  | Ok (id, w') => First_id <= id <= Last_id
  | Throw _ => True
  end.
Proof.
  pose proof (show_identifier First_id Last_id 0%nat 7%nat two_chests) as H.
  destruct (show First_id Last_id 0%nat 7%nat two_chests) as [[id w']|]; [|exact I].
  apply H; [|split]; vm_compute; discriminate.
Defined.

Lemma allocate_bound_witness :
  Forall (fun id => First_id <= id <= Last_id)
         (fst (allocate First_id Last_id 250 (initial First_id))).
Proof.
  apply (allocate_bound First_id Last_id); [|split]; vm_compute; discriminate.
Defined.

(** * Further properties of adding and taking *)

Section Bounds.

Variable equals : ItemStack -> ItemStack -> bool.
Variable Air : string.

(** A run of the adding loop keeps every stored stack within its maximum,
    keeps the caller's stack out of the slots, and only lowers the caller's
    quantity, never below zero. *)
Lemma add_run_bounds c item w w' :
  add_run equals c item w w' ->
  0 <= maxStackSize w item ->
  Some item ∉ elems (store w c) ->
  (forall r, Some r ∈ elems (store w c) -> getStackSize w r <= maxStackSize w r) ->
  (Some item ∉ elems (store w' c)) /\
  (forall r, Some r ∈ elems (store w' c) -> getStackSize w' r <= maxStackSize w' r) /\
  getStackSize w' item <= getStackSize w item /\
  (0 <= getStackSize w item -> 0 <= getStackSize w' item).
Proof.
  induction 1 as [w Hz|w Hp Hfull|w w1 w2 Hp Hstep Hrun IH]; intros Hmx Hni Hmax.
  - repeat split; (done || lia).
  - repeat split; (done || lia).
  - assert (Hstep' :
      (Some item ∉ elems (store w1 c)) /\
      (forall r, Some r ∈ elems (store w1 c) ->
                 getStackSize w1 r <= maxStackSize w1 r) /\
      0 <= getStackSize w1 item <= getStackSize w item /\
      maxStackSize w1 item = maxStackSize w item).
    { destruct Hstep as [i r m Hlow Hi Hm He Sr Si So|e r' m Hnone Hlow Hm Hf Hne He Ht Hs Si So].
      - destruct Hlow as [(x & Hx & Hmer) _].
        rewrite Hi in Hx. injection Hx as <-.
        destruct Hmer as (r1 & [= <-] & Hroom & _).
        assert (Hr : r ≠ item).
        { intros ->. apply Hni, list_elem_of_lookup. eauto. }
        rewrite He. split; [done|]. split.
        + intros r0 Hr0. destruct (decide (r0 = r)) as [->|Hr0r].
          * assert (E1 : getStackSize w1 r = getStackSize w r + m)
              by (unfold getStackSize at 1; by rewrite Sr).
            assert (E2 : maxStackSize w1 r = maxStackSize w r)
              by (unfold maxStackSize at 1; by rewrite Sr).
            rewrite E1, E2. lia.
          * unfold getStackSize, maxStackSize. rewrite So; [by apply Hmax|done|].
            intros ->. done.
        + assert (E1 : getStackSize w1 item = getStackSize w item - m)
            by (unfold getStackSize at 1; by rewrite Si).
          rewrite E1. split; [|by unfold maxStackSize; rewrite Si]. lia.
      - rewrite He. split; [|split].
        + intros Hin. apply list_elem_of_lookup in Hin as [j Hj].
          apply list_lookup_insert_Some in Hj as [(_ & [= ->] & _)|[_ Hj]]; [done|].
          apply Hni, list_elem_of_lookup. eauto.
        + intros r0 Hr0. destruct (decide (r0 = r')) as [->|Hr0r].
          * assert (E2 : maxStackSize w1 r' = maxStackSize w item)
              by (unfold maxStackSize; by rewrite Ht).
            rewrite Hs, E2. lia.
          * apply list_elem_of_lookup in Hr0 as [j Hj].
            apply list_lookup_insert_Some in Hj as [(_ & [= ->] & _)|[_ Hj]]; [done|].
            assert (Hin : Some r0 ∈ elems (store w c)).
            { apply list_elem_of_lookup. eauto. }
            unfold getStackSize, maxStackSize. rewrite So; [by apply Hmax|done|].
            intros ->. done.
        + assert (E1 : getStackSize w1 item = getStackSize w item - m)
            by (unfold getStackSize at 1; by rewrite Si).
          rewrite E1. split; [|by unfold maxStackSize; rewrite Si]. lia. }
    destruct Hstep' as (H1 & H2 & H3 & H4).
    destruct (IH ltac:(lia) H1 H2) as (I1 & I2 & I3 & I4).
    repeat split; try done; lia.
Qed.

(** [addItem] never overfills: if the stored stacks are within their maxima
    before a stackable stack is added, they are afterwards, and the caller's
    stack is left with a quantity between zero and what it had. *)
Theorem addItem_never_overfills (c : cref) (item : ref) (w : World) :
  add_ready Air c item w ->
  (forall r, Some r ∈ elems (store w c) -> getStackSize w r <= maxStackSize w r) ->
  0 <= getStackSize w item ->
  exists b w',
    (forall fuel, (Z.to_nat (getStackSize w item) < fuel)%nat ->
       addItem equals Air fuel c item w = Some (b, w')) /\
    (forall r, Some r ∈ elems (store w' c) ->
       getStackSize w' r <= maxStackSize w' r) /\
    0 <= getStackSize w' item <= getStackSize w item.
Proof.
  intros Hready Hmax Hpos.
  destruct (addItem_loop_run equals Air c item (Z.to_nat (getStackSize w item)) w
              Hready ltac:(lia)) as (w' & Hl & Hrun & _).
  destruct (add_run_bounds c item w w' Hrun) as (_ & B1 & B2 & B3);
    [destruct Hready as (_ & ? & _); lia|apply Hready|done|].
  exists (getStackSize w' item =? 0), w'. split; [|split; [done|lia]].
  intros fuel Hfuel. unfold addItem.
  destruct Hready as (-> & _). cbn [negb].
  by rewrite (addItem_loop_fuel equals Air c item _ fuel w w' Hl) by lia.
Qed.

(** [takeItem] touches the key it resolves and nothing else in any storage;
    it keeps sizes and occupants; and of the stacks that existed only the one
    in the slot can change. *)
Theorem takeItem_frame (c : cref) (slot : index) (amount : Z) (w : World) :
  let k := js_rem slot (size w c) in
  let w' := snd (takeItem c slot amount w) in
  (forall c' k', ~ (c = c' /\ k = k') ->
     storage_get (store w' c') k' = storage_get (store w c') k') /\
  (forall c', size w' c' = size w c' /\
              occupants (cont w' c') = occupants (cont w c')) /\
  (forall r, r ∈ dom (items w) -> getItem c slot w ≠ Some r ->
     stack w' r = stack w r).
Proof.
  intros k w'. subst w'. unfold takeItem. rewrite getItem_js_rem. fold k.
  destruct (getItem c slot w) as [item|] eqn:Hg; [|done].
  assert (Hk : js_rem k (size w c) = k) by apply js_rem_idem.
  destruct (amount =? getStackSize w item).
  { cbn [snd]. split; [|split].
    - intros c' k' Hne. rewrite read_clearSlot, Hk. by rewrite decide_False.
    - intros c'. by rewrite size_clearSlot, occupants_clearSlot.
    - intros r _ _. apply stack_clearSlot. }
  set (taken := Z.min amount (getStackSize w item)).
  set (w1 := decrementStack item taken w).
  set (w2 := if getStackSize w1 item =? 0 then clearSlot c k w1 else w1).
  assert (R2 : forall c' k', ~ (c = c' /\ k = k') ->
                 storage_get (store w2 c') k' = storage_get (store w c') k').
  { intros c' k' Hne. unfold w2. case (_ =? 0); [|done].
    rewrite read_clearSlot. change (size w1 c) with (size w c).
    rewrite Hk. by rewrite decide_False. }
  assert (Z2 : forall c', size w2 c' = size w c' /\
                          occupants (cont w2 c') = occupants (cont w c')).
  { intros c'. unfold w2. case (_ =? 0); [|done].
    by rewrite size_clearSlot, occupants_clearSlot. }
  assert (S2 : forall r, r ≠ item -> stack w2 r = stack w r).
  { intros r Hr. unfold w2.
    case (_ =? 0); rewrite ?stack_clearSlot; unfold w1, decrementStack, setStackSize;
      by rewrite stack_update_stack_ne. }
  assert (D2 : forall r, r ∈ dom (items w) -> r ∈ dom (items w2)).
  { intros r Hr. unfold w2.
    case (_ =? 0); rewrite ?items_clearSlot; unfold w1, decrementStack, setStackSize;
      rewrite dom_items_update_stack; apply elem_of_union; by right. }
  unfold new_ItemStack.
  set (r' := fresh (dom (items w2))).
  assert (Hfresh : r' ∉ dom (items w2)) by apply is_fresh.
  set (w3 := set_items _ w2).
  assert (S3 : forall r, r ≠ r' -> stack w3 r = stack w2 r).
  { intros r Hr. unfold w3, stack, set_items; cbn [items].
    by rewrite lookup_total_insert_ne. }
  set (w4 := foldl _ w3 _).
  destruct (foldl_setDynamicProperty r'
              (map_to_list (dynamicProperties (stack w3 item))) w3)
    as (C4 & _ & _ & S4 & _). fold w4 in C4, S4.
  set (w5 := foldl _ w4 _).
  destruct (foldl_clone_frame r' (traits (stack w4 item)) w4) as (C5 & _ & S5).
  fold w5 in C5, S5.
  set (w6 := updateSlot c k w5).
  set (w7 := foldl _ w6 _).
  destruct (foldl_nbt_add r' (map_to_list (nbt (stack w6 item))) w6)
    as (C7 & _ & _ & S7 & _). fold w7 in C7, S7.
  assert (C : containers w7 = containers w2).
  { rewrite C7. change (containers w6) with (containers w5). by rewrite C5, C4. }
  cbn [snd]. split; [|split].
  - intros c' k' Hne. unfold store, cont. rewrite C. by apply R2.
  - intros c'. unfold size, store, cont. rewrite C. apply Z2.
  - intros r Hr Hne.
    assert (r ≠ r') by (intros ->; by apply Hfresh, D2).
    assert (r ≠ item) by congruence.
    rewrite S7 by done. change (stack w6 r) with (stack w5 r).
    rewrite S5, S4, S3 by done. by apply S2.
Qed.

(** [removeItem] likewise touches one key only and keeps sizes, occupants
    and every stack other than the stored one. *)
Theorem removeItem_frame (c : cref) (slot : index) (amount : Z) (w : World) :
  let k := js_rem slot (size w c) in
  let w' := snd (removeItem c slot amount w) in
  (forall c' k', ~ (c = c' /\ k = k') ->
     storage_get (store w' c') k' = storage_get (store w c') k') /\
  (forall c', size w' c' = size w c' /\
              occupants (cont w' c') = occupants (cont w c')) /\
  (forall r, getItem c slot w ≠ Some r -> stack w' r = stack w r) /\
  dom (items w') ⊆ dom (items w) ∪ match getItem c slot w with
                                   | Some r => {[r]}
                                   | None => ∅
                                   end.
Proof.
  intros k w'. subst w'. unfold removeItem. rewrite getItem_js_rem. fold k.
  destruct (getItem c slot w) as [item|] eqn:Hg.
  2:{ cbn [snd]. repeat split; try done. apply union_subseteq_l. }
  set (w1 := decrementStack item _ w). cbn [snd].
  assert (S1 : forall r, Some item ≠ Some r -> stack w1 r = stack w r).
  { intros r Hr. unfold w1, decrementStack, setStackSize.
    rewrite stack_update_stack_ne; [done|congruence]. }
  assert (D1 : dom (items w1) ⊆ dom (items w) ∪ {[item]}).
  { unfold w1, decrementStack, setStackSize. rewrite dom_items_update_stack.
    by rewrite (comm_L (∪)). }
  destruct (getStackSize w1 item =? 0).
  - split; [|split; [|split]]; [| |done|done].
    + intros c' k' Hne. rewrite store_write_slot. case_decide as E; [|done].
      subst c'. rewrite storage_get_set. rewrite decide_False; [done|].
      intros Hk. apply Hne. split; [done|]. done.
    + intros c'. by rewrite size_write_slot, occupants_write_slot.
  - done.
Qed.

End Bounds.

Lemma addItem_never_overfills_witness :
  exists b w',
    (forall fuel, (Z.to_nat (getStackSize forty_and_thirty 1%nat) < fuel)%nat ->
       addItem equals_type air fuel 0%nat 1%nat forty_and_thirty = Some (b, w')) /\
    (forall r, Some r ∈ elems (store w' 0%nat) ->
       getStackSize w' r <= maxStackSize w' r) /\
    0 <= getStackSize w' 1%nat <= getStackSize forty_and_thirty 1%nat.
Proof.
  apply (addItem_never_overfills equals_type air 0%nat 1%nat forty_and_thirty).
  - exact forty_and_thirty_ready.
  - intros r Hr. assert (r = 0%nat) as ->.
    { vm_compute in Hr.
      repeat (apply elem_of_cons in Hr as [Hr|Hr]; [congruence|]).
      by apply elem_of_nil in Hr. }
    vm_compute. discriminate.
  - vm_compute. discriminate.
Defined.


(** * Taking from a slot, for every world *)

Section TakeAny.

(** Cloning the traits in [l] onto the stack [r], whatever the trait
    references are: each clone is a new trait object attached to [r], and it
    copies the kind and state of the trait it was cloned from whenever that
    trait is an object of the world. *)
Lemma foldl_clone_any (r : ref) (l : list tref) (w : World) :
  let w' := foldl (fun w trait =>
                     let '(cloned, w) := clone_trait trait r w in
                     addTrait r cloned w) w l in
  containers w' = containers w /\
  events w' = events w /\
  (forall r0, r0 ≠ r -> stack w' r0 = stack w r0) /\
  (forall t, t ∈ dom (traitObjs w) -> traitObjs w' !! t = traitObjs w !! t) /\
  exists ts,
    stack w' r = with_traits (traits (stack w r) ++ ts) (stack w r) /\
    Forall2 (cloned_onto w w' r) l ts.
Proof.
  revert w. induction l as [|t l IH]; intros w; cbn [foldl].
  - repeat split; try done. exists []. split; [by rewrite with_traits_nil|constructor].
  - set (t1 := fresh (dom (traitObjs w))).
    set (cl := mkTrait (trait_identifier (traitObjs w !!! t)) r
                       (trait_state (traitObjs w !!! t))).
    set (w1 := addTrait r t1 (set_traitObjs (fun m => <[t1 := cl]> m) w)).
    assert (Hfresh : t1 ∉ dom (traitObjs w)) by apply is_fresh.
    assert (Hobjs : traitObjs w1 = <[t1 := cl]> (traitObjs w)) by done.
    assert (Hmono : forall x, x ∈ dom (traitObjs w) -> x ∈ dom (traitObjs w1)).
    { intros x Hx. rewrite Hobjs, dom_insert_L. apply elem_of_union. by right. }
    assert (Ht1 : t1 ∈ dom (traitObjs w1)).
    { rewrite Hobjs, dom_insert_L. apply elem_of_union. left.
      by apply elem_of_singleton. }
    change (let '(cloned, w0) := clone_trait t r w in addTrait r cloned w0) with w1.
    destruct (IH w1) as (H1 & H2 & H3 & H4 & ts & H5 & H6).
    split; [by rewrite H1|]. split; [by rewrite H2|].
    split; [|split].
    + intros r0 Hr. rewrite H3 by done. unfold w1, addTrait.
      by rewrite stack_update_stack_ne.
    + intros x Hx. rewrite H4 by auto.
      rewrite Hobjs. apply lookup_insert_ne. intros ->. done.
    + exists (t1 :: ts). split.
      * rewrite H5. unfold w1, addTrait. rewrite stack_update_stack_eq.
        change (stack (set_traitObjs _ w) r) with (stack w r).
        unfold with_traits; cbn [type stackSize container dynamicProperties traits nbt].
        by rewrite <- app_assoc.
      * assert (E1 : traitObjs (foldl (fun w trait =>
                       let '(cloned, w) := clone_trait trait r w in
                       addTrait r cloned w) w1 l) !! t1 = Some cl).
        { rewrite H4 by done. by rewrite Hobjs, lookup_insert_eq. }
        constructor.
        -- unfold cloned_onto. split; [done|]. split.
           ++ apply elem_of_dom. eauto.
           ++ rewrite lookup_total_alt, E1. done.
        -- eapply Forall2_impl; [exact H6|].
           intros x y (Hy1 & Hy2 & Hy3 & Hy4). unfold cloned_onto. split.
           ++ intros Hin. apply Hy1. by apply Hmono.
           ++ split; [done|]. split; [done|]. intros Hx.
              rewrite Hy4 by auto. rewrite Hobjs, lookup_total_insert_ne; [done|].
              intros ->. done.
Qed.

Lemma takeItem_split_any c slot amount w item :
  getItem c slot w = Some item ->
  amount ≠ getStackSize w item ->
  let original := getStackSize w item in
  let taken := Z.min amount original in
  exists r w', takeItem c slot amount w = (Some r, w') /\
    (r ∉ dom (items w)) /\ r ≠ item /\
    getItem c slot w' = (if original - taken =? 0 then None else Some item) /\
    stack w' item = with_stackSize (original - taken) (stack w item) /\
    type (stack w' r) = type (stack w item) /\
    stackSize (stack w' r) = taken /\
    dynamicProperties (stack w' r) = dynamicProperties (stack w item) /\
    nbt (stack w' r) = nbt (stack w item) /\
    Forall2 (cloned_onto w w' r)
            (traits (stack w item)) (traits (stack w' r)) /\
    (forall t, t ∈ dom (traitObjs w) -> traitObjs w' !! t = traitObjs w !! t).
Proof.
  intros Hg Hne original taken.
  pose (k := js_rem slot (size w c)).
  pose (w1 := decrementStack item taken w).
  pose (w2 := if getStackSize w1 item =? 0 then clearSlot c k w1 else w1).
  pose (r := fresh (dom (items w2))).
  pose (w3 := set_items
                (fun m => <[r := mkItemStack (type (stack w2 item)) taken None ∅ [] ∅]> m) w2).
  pose (w4 := foldl (fun w '(key, value) => setDynamicProperty r key value w)
                    w3 (map_to_list (dynamicProperties (stack w3 item)))).
  pose (w5 := foldl (fun w trait =>
                       let '(cloned, w) := clone_trait trait r w in
                       addTrait r cloned w) w4 (traits (stack w4 item))).
  pose (w6 := updateSlot c k w5).
  pose (w7 := foldl (fun w '(name, value) => nbt_add r name value w)
                    w6 (map_to_list (nbt (stack w6 item)))).
  assert (Heq : takeItem c slot amount w = (Some r, w7)).
  { unfold takeItem. rewrite getItem_js_rem, Hg.
    destruct (amount =? getStackSize w item) eqn:E; [lia|]. reflexivity. }
  exists r, w7. split; [exact Heq|].
  (* the original stack after the decrement *)
  assert (S1 : stack w1 item = with_stackSize (original - taken) (stack w item)).
  { unfold w1, decrementStack, setStackSize. by rewrite stack_update_stack_eq. }
  assert (D1 : dom (items w1) = {[item]} ∪ dom (items w)).
  { unfold w1, decrementStack, setStackSize. apply dom_items_update_stack. }
  assert (S2 : forall r0, stack w2 r0 = stack w1 r0).
  { intros r0. unfold w2. case (_ =? 0); [apply stack_clearSlot|done]. }
  assert (D2 : items w2 = items w1).
  { unfold w2. case (_ =? 0); [apply items_clearSlot|done]. }
  assert (T2 : traitObjs w2 = traitObjs w).
  { unfold w2. case (_ =? 0); [rewrite traitObjs_clearSlot|]; done. }
  assert (G2 : getItem c slot w2 = (if original - taken =? 0 then None else Some item)).
  { unfold w2. replace (getStackSize w1 item) with (original - taken)
      by (unfold getStackSize; by rewrite S1).
    case (original - taken =? 0).
    - exact (getItem_clearSlot_js_rem c slot w1).
    - exact Hg. }
  (* the new stack *)
  assert (Hr : r ∉ dom (items w2)) by apply is_fresh.
  rewrite D2, D1 in Hr.
  assert (Hri : r ≠ item).
  { intros ->. apply Hr, elem_of_union. left. by apply elem_of_singleton. }
  assert (Hrw : r ∉ dom (items w)).
  { intros Hin. apply Hr, elem_of_union. by right. }
  assert (S3 : stack w3 r = mkItemStack (type (stack w item)) taken None ∅ [] ∅).
  { unfold w3, stack, set_items; cbn [items]. rewrite lookup_total_insert_eq.
    f_equal. fold (stack w2 item). by rewrite S2, S1. }
  assert (S3' : forall r0, r0 ≠ r -> stack w3 r0 = stack w2 r0).
  { intros r0 Hr0. unfold w3, stack, set_items; cbn [items].
    by rewrite lookup_total_insert_ne. }
  assert (I3 : stack w3 item = with_stackSize (original - taken) (stack w item)).
  { rewrite S3' by done. by rewrite S2. }
  (* the dynamic properties *)
  destruct (foldl_setDynamicProperty r
              (map_to_list (dynamicProperties (stack w3 item))) w3)
    as (C4 & T4 & _ & S4' & S4).
  fold w4 in C4, T4, S4', S4.
  rewrite S3 in S4. cbn [type stackSize container dynamicProperties traits nbt with_stackSize with_traits with_nbt with_dynamicProperties with_container] in S4. rewrite I3 in S4. cbn [type stackSize container dynamicProperties traits nbt with_stackSize with_traits with_nbt with_dynamicProperties with_container] in S4.
  rewrite foldl_insert_map_to_list in S4.
  (* the traits *)
  assert (I4 : stack w4 item = with_stackSize (original - taken) (stack w item)).
  { rewrite S4' by done. exact I3. }
  destruct (foldl_clone_any r (traits (stack w4 item)) w4)
    as (C5 & _ & S5' & T5 & ts & S5 & F5).
  fold w5 in C5, S5', T5, S5, F5.
  rewrite I4 in F5. cbn [type stackSize container dynamicProperties traits nbt with_stackSize with_traits with_nbt with_dynamicProperties with_container] in F5.
  rewrite S4 in S5. cbn [type stackSize container dynamicProperties traits nbt with_stackSize with_traits with_nbt with_dynamicProperties with_container] in S5.
  (* the tags *)
  assert (I6 : stack w6 item = with_stackSize (original - taken) (stack w item)).
  { unfold w6. rewrite stack_updateSlot, S5' by done. exact I4. }
  destruct (foldl_nbt_add r (map_to_list (nbt (stack w6 item))) w6)
    as (C7 & T7 & _ & S7' & S7).
  fold w7 in C7, T7, S7', S7.
  assert (S6 : stack w6 r = stack w5 r) by done.
  rewrite S6, S5, I6 in S7. cbn [type stackSize container dynamicProperties traits nbt with_stackSize with_traits with_nbt with_dynamicProperties with_container] in S7.
  rewrite foldl_insert_map_to_list in S7.
  assert (TO : traitObjs w4 = traitObjs w).
  { rewrite T4. change (traitObjs w3) with (traitObjs w2). exact T2. }
  split; [done|]. split; [done|]. split.
  { rewrite <- G2. apply getItem_containers.
    rewrite C7. unfold w6. change (containers (updateSlot c k w5)) with (containers w5).
    by rewrite C5, C4. }
  split; [by rewrite S7'|].
  rewrite S7. cbn [type stackSize container dynamicProperties traits nbt with_stackSize with_traits with_nbt with_dynamicProperties with_container]. repeat (split; [done|]).
  split.
  - eapply Forall2_impl; [exact F5|]. intros t t' (H1 & H2 & H3 & H4).
    unfold cloned_onto. rewrite TO in H1, H4. rewrite T7.
    change (traitObjs w6) with (traitObjs w5). done.
  - intros t Ht. rewrite T7. change (traitObjs w6) with (traitObjs w5).
    rewrite T5 by (by rewrite TO). by rewrite TO.
Qed.



End TakeAny.


(** * The stackable add, for the stacks it is ready for *)

Section AddAlgorithm.

Variable equals : ItemStack -> ItemStack -> bool.
Variable Air : string.

(** A run of the specified loop never empties a slot. *)
Lemma add_run_keeps_occupied c item w w' :
  add_run equals c item w w' ->
  forall i r, elems (store w c) !! i = Some (Some r) ->
  exists r2, elems (store w' c) !! i = Some (Some r2).
Proof.
  induction 1 as [w Hle | w Hpos Hfull | w w1 w2 Hpos Hstep Hrun IH];
    intros i r Hi; [by exists r|by exists r|].
  destruct Hstep as [j r0 m _ _ _ He _ _ _ | e r' m _ _ _ _ _ He _ _ _ _].
  - apply (IH i r). by rewrite He.
  - destruct (decide (e = i)) as [->|Hne].
    + apply (IH i r'). rewrite He. apply list_lookup_insert_eq.
      by eapply lookup_lt_Some.
    + apply (IH i r). rewrite He. by rewrite list_lookup_insert_ne.
Qed.

(** The loop ends within as many turns as the stack has units; what it does
    is a run of the specified algorithm; the stack handed in is still the
    caller's own afterwards; and if something remains, no slot could take
    more. *)
Lemma addItem_loop_ready c item n w :
  add_ready Air c item w ->
  getStackSize w item <= Z.of_nat n ->
  exists w', addItem_loop equals Air (S n) c item w = Some w' /\
    add_run equals c item w w' /\
    add_ready Air c item w' /\
    (0 < getStackSize w' item ->
     Forall (fun slot => ~ mergeable equals w' item slot /\ slot ≠ None)
            (elems (store w' c))).
Proof.
  revert w. induction n as [|n IH]; intros w Hready Hsize.
  - exists w. split; [by apply addItem_loop_done; lia|].
    split; [by apply run_absorbed; lia|]. split; [done|lia].
  - destruct (decide (getStackSize w item <= 0)) as [Hz|Hpos].
    { exists w. split; [by apply addItem_loop_done|].
      split; [by apply run_absorbed|]. split; [done|lia]. }
    assert (0 < getStackSize w item) as Hp by lia. clear Hpos.
    destruct (findIndex_accepting equals w item (store w c)) as [[i [r|]]|] eqn:Hf.
    + destruct (merge_step equals Air c item w i r Hready Hp Hf)
        as (Hm & Hs & Hstep & Hr1 & _).
      rewrite (addItem_loop_merge equals Air _ c item w i r Hp Hf).
      destruct (IH _ Hr1 ltac:(lia)) as (w' & Hl & Hrun & Hr' & Hfull).
      exists w'. split; [done|]. split; [by eapply run_step|done].
    + by apply findIndex_accepting_occupied in Hf.
    + destruct (indexOf_null (store w c)) as [e|] eqn:He.
      * destruct (place_step equals Air c item w e Hready Hp Hf He)
          as (Hm & Hs & Hstep & Hr1 & _).
        rewrite (addItem_loop_place equals Air _ c item w e Hp Hf He).
        destruct (IH _ Hr1 ltac:(lia)) as (w' & Hl & Hrun & Hr' & Hfull).
        exists w'. split; [done|]. split; [by eapply run_step|done].
      * assert (Hfull : Forall (fun slot => ~ mergeable equals w item slot /\ slot ≠ None)
                               (elems (store w c))).
        { unfold findIndex_accepting in Hf. apply list_find_None in Hf.
          unfold indexOf_null in He.
          destruct (list_find _ (elems (store w c))) eqn:Hn; [done|].
          apply list_find_None in Hn.
          apply Forall_and. split; [|done].
          eapply Forall_impl; [exact Hf|]. intros x Hx Hmer. simpl in Hx.
          by apply accepts_mergeable in Hmer. }
        exists w. split; [by apply addItem_loop_full|].
        split; [by apply run_full|]. split; [done|]. intros _. exact Hfull.
Qed.


End AddAlgorithm.



(** What the chest holds after that call. *)
Lemma chest_and_air_slots :
  exists w',
    addItem equals_type air 2 0%nat 0%nat chest_and_air = Some (true, w') /\
    elems (store w' 0%nat) = [None; None] /\
    getStackSize w' 0%nat = 0.
Proof. eexists. split; [vm_compute; reflexivity|]. vm_compute. done. Qed.

(** A stack that already sits in the container is not one [addItem] is
    ready for: the first turn finds that very stack as the one to merge
    into, adds and takes away the same quantity, and the loop goes on
    without end. *)
Lemma addItem_own_stack_never_returns (fuel : nat) :
  addItem equals_type air fuel 0%nat 0%nat chest_with_ten = None.
Proof.
  assert (Hl : addItem_loop equals_type air fuel 0%nat 0%nat chest_with_ten = None).
  { induction fuel as [|n IH]; [done|].
    rewrite (addItem_loop_merge equals_type air n 0%nat 0%nat chest_with_ten 0%nat 0%nat);
      [|reflexivity|reflexivity].
    etrans; [|exact IH]. f_equal. }
  unfold addItem. change (isStackable chest_with_ten 0%nat) with true.
  cbn [negb]. by rewrite Hl.
Qed.
